(** * AuditFi: the multi-RPC audit fetch of the reports and profile views

    A shallow embedding of [fetchAllChainAudits] and [getFilteredReports]
    (reports page) and of [fetchUserStats] (profile page), together with
    the properties of the retry / backoff / aggregation routine.

    The two fetch functions are the same text up to the record they push
    and one extra conjunct in the push guard; the embedding writes the text
    once, in [Section Fetcher], and instantiates it twice.

    How the code is read:
    - an [async] function body is a computation over the state of the task
      ([allAudits], a clock, a trace) that completes normally or throws;
    - the network is a parameter: what constructing a contract handle and
      calling its two read methods does at a given time;
    - time is a clock in milliseconds that only the [await]s advance, each
      by the time it is suspended, a timer of [d] ms firing after [d] ms;
    - [console.log], [console.warn] and [console.error] append to the
      trace, as do the waits;
    - the React setters are left out: the value of a fetch function is the
      array it hands to [setReports] or the object it hands to [setStats];
    - the values decoded from the registry have the types of its ABI:
      strings for hashes, summaries and addresses, integers for stars,
      timestamps and the count. *)

From Stdlib Require Import ZArith Ascii String Lia.
From Equations Require Import Equations.
From stdpp Require Import base list gmap strings sorting.

Local Open Scope string_scope.
Local Open Scope list_scope.
Local Open Scope nat_scope.

(** ** JavaScript values the routine touches *)

(** [String.prototype.includes] on byte strings. *)
Fixpoint includes (s sub : string) : bool :=
  String.prefix sub s ||
  match s with
  | EmptyString => false
  | String _ rest => includes rest sub
  end.

(** [String.prototype.toLowerCase]; the strings compared are hexadecimal
    addresses and hashes, so only the ASCII letters are mapped. *)
Definition lower_ascii (c : ascii) : ascii :=
  let n := nat_of_ascii c in
  if (65 <=? n) && (n <=? 90) then ascii_of_nat (n + 32) else c.

Fixpoint toLowerCase (s : string) : string :=
  match s with
  | EmptyString => EmptyString
  | String c rest => String (lower_ascii c) (toLowerCase rest)
  end.

(** [Number(x)] for a [bigint] [x]: the nearest IEEE-754 double, ties to
    even.  The ABI bounds every decoded integer by [2^256], so the result is
    finite and is itself an integer; it is kept as a [Z]. *)
Definition Number (x : Z) : Z :=
  let a := Z.abs x in
  if (a <? 2 ^ 53)%Z then x
  else
    let e := (Z.log2 a - 52)%Z in
    let q := Z.shiftr a e in
    let r := Z.land a (Z.ones e) in
    let half := Z.shiftl 1 (e - 1) in
    let q' := if (half <? r)%Z || ((r =? half)%Z && Z.odd q)
              then (q + 1)%Z else q in
    (Z.sgn x * Z.shiftl q' e)%Z.

(** [s || ''] for a string [s]: the empty string is the only falsy one. *)
Definition orEmpty (s : string) : string :=
  match s with
  | EmptyString => ""
  | _ => s
  end.

(** An [Error] object as the [catch] clause reads it: [error?.code] and
    [error?.message].  [new Error(m)], the runtime's [TypeError]s and the
    errors ethers builds all carry a string message. *)
Record JsError := mkError { code : option string; message : string }.

Definition Error (msg : string) : JsError := mkError None msg.

Definition TypeError_length : JsError :=
  mkError None "Cannot read properties of undefined (reading 'length')".

(** The outcome of evaluating a statement or expression. *)
Inductive Completion (A : Type) :=
| Normal (a : A)
| Throw (e : JsError).
Arguments Normal {A} a.
Arguments Throw {A} e.

(** ** The registry as seen through one RPC endpoint *)

(** The value [getAllAudits] resolves to.  A field is [None] when the
    property is [undefined] (reading [.length] of it throws), except
    [contractHashes], which is [None] when [Array.isArray] rejects it. *)
Record AuditsResult := mkResult {
  contractHashes : option (list string);
  stars : option (list Z);
  summaries : option (list string);
  auditors : option (list string);
  timestamps : option (list Z)
}.

(** A pending promise: it settles after [latency] milliseconds, or never. *)
Inductive Call (A : Type) :=
| Settles (latency : N) (r : Completion A)
| Pending.
Arguments Settles {A} latency r.
Arguments Pending {A}.

(** [new ethers.Contract(address, abi, provider)]: both read methods, as
    functions of the time (ms) at which they are called.  The result of
    [getAllAudits] is [None] when it is [null] or [undefined]. *)
Record Contract := mkContract {
  getTotalContracts : N -> Call Z;
  getAllAudits : N -> Z -> Z -> Call (option AuditsResult)
}.

(** The network: constructing the provider and the contract for an RPC URL
    and a registry address at a given time either throws or gives the
    contract handle. *)
Definition World := string -> string -> N -> Completion Contract.

(** [Promise.race([p, new Promise((_, reject) => setTimeout(() =>
    reject(new Error(msg)), timeout))])]: the time waited and the outcome. *)
Definition race_timeout {A} (p : Call A) (timeout : N) (msg : string)
  : N * Completion A :=
  match p with
  | Settles latency r =>
      if (latency <? timeout)%N then (latency, r)
      else (timeout, Throw (Error msg))
  | Pending => (timeout, Throw (Error msg))
  end.

(** ** Configuration *)

Record NativeCurrency := mkCurrency {
  name : string;
  symbol : string;
  decimals : nat
}.

Record ChainConfig := mkChain {
  chainId : string;
  chainName : string;
  nativeCurrency : NativeCurrency;
  rpcUrls : list string;
  blockExplorerUrls : list string;
  iconPath : string
}.

(** ** Diagnostics and suspension points *)

Inductive AwaitKind := CountQuery | BulkFetch | BatchPause | Backoff.

Inductive Event :=
| LogFetchFrom (chainKey : string)
| LogNoAddress (chainKey : string)
| LogAttemptRpc (rpcUrl : string) (attempt : nat) (maxRetries : nat)
| Awaited (what : AwaitKind) (elapsed : N)
| LogTotal (chainKey : string) (n : Z)
| LogNoContracts (chainKey : string)
| LogProcessed (n : nat) (chainKey : string)
| WarnRpcFailed (rpcUrl : string) (msg : string)
| ErrorOn (chainKey : string) (e : JsError)
| LogRetrying (chainKey : string) (delay : N)
| ErrorFailed (chainKey : string) (maxRetries : nat).

(** ** The task's state and its monad *)

(** What one run of the fetch function owns: the accumulating [allAudits]
    array, the time elapsed since the call (ms) and what was printed or
    awaited so far. *)
Record State (R : Type) := mkState {
  allAudits : list R;
  clock : N;
  trace : list Event
}.
Arguments mkState {R} allAudits clock trace.
Arguments allAudits {R} s.
Arguments clock {R} s.
Arguments trace {R} s.

(** Statements: they read and update the state and complete normally or
    throw. *)
Definition M (R A : Type) : Type := State R -> Completion A * State R.

Global Instance M_ret {R} : MRet (M R) := fun A a s => (Normal a, s).

Global Instance M_bind {R} : MBind (M R) := fun A B k c s =>
  match c s with
  | (Normal a, s') => k a s'
  | (Throw e, s') => (Throw e, s')
  end.

Definition throw {R A} (e : JsError) : M R A := fun s => (Throw e, s).

Definition lift {R A} (c : Completion A) : M R A := fun s => (c, s).

(** [try { body } catch (error) { handler }] *)
Definition try_catch {R A} (body : M R A) (handler : JsError -> M R A)
  : M R A := fun s =>
  match body s with
  | (Normal a, s') => (Normal a, s')
  | (Throw error, s') => handler error s'
  end.

Definition console {R} (e : Event) : M R unit := fun s =>
  (Normal tt, mkState (allAudits s) (clock s) (trace s ++ [e])).

(** Suspend for [elapsed] ms at an [await]. *)
Definition await {R} (what : AwaitKind) (elapsed : N) : M R unit := fun s =>
  (Normal tt,
   mkState (allAudits s) (clock s + elapsed)%N
     (trace s ++ [Awaited what elapsed])).

(** [await Promise.race([p, timeout])] *)
Definition await_race {R A} (what : AwaitKind) (p : Call A) (timeout : N)
    (msg : string) : M R A :=
  let '(elapsed, r) := race_timeout p timeout msg in
  await what elapsed ;; lift r.

Definition currentTime {R} : M R N := fun s => (Normal (clock s), s).

Definition push {R} (r : R) : M R unit := fun s =>
  (Normal tt, mkState (allAudits s ++ [r]) (clock s) (trace s)).

(** [Array.prototype.slice(b, e)] for [0 <= b <= e]. *)
Definition slice {A} (b e : nat) (l : list A) : list A :=
  take (e - b) (drop b l).

(** [Array.prototype.forEach((x, idx) => f x idx)], from index [idx] on. *)
Fixpoint forEach {R A} (f : A -> nat -> M R unit) (l : list A) (idx : nat)
  : M R unit :=
  match l with
  | [] => mret tt
  | x :: l' => f x idx ;; forEach f l' (S idx)
  end.

(** [Array.prototype.sort(cmp)]: stable, and [cmp] is a consistent
    comparator wherever it is used below; insertion from the right keeps
    equal elements in their original order. *)
Fixpoint sort_insert {A} (cmp : A -> A -> Z) (x : A) (l : list A) : list A :=
  match l with
  | [] => [x]
  | y :: l' => if (0 <? cmp x y)%Z then y :: sort_insert cmp x l' else x :: l
  end.

Definition sort {A} (cmp : A -> A -> Z) (l : list A) : list A :=
  foldr (sort_insert cmp) [] l.

(** Descending order on a key: [a] may stand before [b]. *)
Definition descBy {A} (key : A -> Z) (a b : A) : Prop := (key b <= key a)%Z.

(** ** Constants of the loop *)

Definition maxRetries : nat := 3.
Definition baseDelay : N := 2000.
Definition batchSize : nat := 50.

(** ** Reading a run *)

(** A state with nothing accumulated yet, at time [t]. *)
Definition fresh {R} (t : N) : State R := mkState [] t [].

(** [s] followed by what a run started from [fresh (clock s)] did. *)
Definition frame {R} (s s0 : State R) : State R :=
  mkState (allAudits s ++ allAudits s0) (clock s0) (trace s ++ trace s0).

(** A computation only appends: run from [s], it does what it does from
    [fresh (clock s)], after what [s] already holds. *)
Definition framed {R A} (c : M R A) : Prop :=
  forall s, c s = ((c (fresh (clock s))).1, frame s (c (fresh (clock s))).2).

(** What an attempt may print or wait for after announcing itself. *)
Definition inTry (e : Event) : Prop :=
  match e with
  | Awaited CountQuery d => (d <= 10000)%N
  | Awaited BulkFetch d => (d <= 20000)%N
  | Awaited BatchPause d => d = 10%N
  | LogTotal _ _ | LogNoContracts _ | LogProcessed _ _ => True
  | _ => False
  end.

(** What a round of attempt number [retryCount + 1] may print or wait
    for. *)
Definition inRound (retryCount : nat) (e : Event) : Prop :=
  match e with
  | LogAttemptRpc _ attempt m => attempt = retryCount + 1 /\ m = maxRetries
  | WarnRpcFailed _ _ | ErrorOn _ _ => True
  | _ => inTry e
  end.

(** The endpoint attempts of a trace: URL and attempt number. *)
Definition attempts (tr : list Event) : list (string * nat) :=
  omap (fun e => match e with
                 | LogAttemptRpc rpcUrl attempt _ => Some (rpcUrl, attempt)
                 | _ => None
                 end) tr.

(** The waits of one kind in a trace, in order. *)
Definition awaits (what : AwaitKind) (tr : list Event) : list N :=
  omap (fun e => match e, what with
                 | Awaited CountQuery d, CountQuery
                 | Awaited BulkFetch d, BulkFetch
                 | Awaited BatchPause d, BatchPause
                 | Awaited Backoff d, Backoff => Some d
                 | _, _ => None
                 end) tr.

Definition sumN (l : list N) : N := foldr N.add 0%N l.

(** All the waits of a trace, in order. *)
Definition waits (tr : list Event) : list N :=
  omap (fun e => match e with
                 | Awaited _ d => Some d
                 | _ => None
                 end) tr.

(** A computation whose waits follow one another: the time it takes is
    the sum of the waits it logs. *)
Definition timed {R A} (c : M R A) : Prop :=
  forall s, exists tr,
    trace (c s).2 = trace s ++ tr
    /\ clock (c s).2 = (clock s + sumN (waits tr))%N.

(** The attempts of consecutive rounds, the first of them numbered
    [retryCount + 1], where [rounds] lists the URLs each round tried. *)
Fixpoint roundAttempts (retryCount : nat) (rounds : list (list string))
  : list (string * nat) :=
  match rounds with
  | [] => []
  | tried :: rest =>
      map (fun u => (u, retryCount + 1)) tried
      ++ roundAttempts (S retryCount) rest
  end.

(** The attempts and the backoff waits of a trace, in the order they
    happen. *)
Definition schedule (tr : list Event) : list (string * nat + N) :=
  omap (fun e => match e with
                 | LogAttemptRpc rpcUrl attempt _ => Some (inl (rpcUrl, attempt))
                 | Awaited Backoff d => Some (inr d)
                 | _ => None
                 end) tr.

(** Consecutive rounds as in [roundAttempts], with the wait
    [baseDelay * 2^k] between round number [k] and the next. *)
Fixpoint roundSchedule (retryCount : nat) (rounds : list (list string))
  : list (string * nat + N) :=
  match rounds with
  | [] => []
  | tried :: rest =>
      (inl <$> map (fun u => (u, retryCount + 1)) tried) ++
      match rest with
      | [] => []
      | _ =>
          inr (baseDelay * 2 ^ N.of_nat (S retryCount))%N
          :: roundSchedule (S retryCount) rest
      end
  end.

(** ** The fetch loop *)

(** The number of passes of the batch loop over [n] remaining hashes. *)
Definition batchesOf (n : nat) : nat := (n + (batchSize - 1)) / batchSize.

(** [a.length] *)
Definition lengthOf {A} (a : option (list A)) : Completion nat :=
  match a with
  | Some l => Normal (length l)
  | None => Throw TypeError_length
  end.

(** [i < a.length] *)
Definition lt_length {A} (i : nat) (a : option (list A)) : Completion bool :=
  match lengthOf a with
  | Normal n => Normal (i <? n)
  | Throw e => Throw e
  end.

(** [c && k], [k] evaluated only when [c] is true. *)
Definition and_then (c k : Completion bool) : Completion bool :=
  match c with
  | Normal true => k
  | _ => c
  end.

(** [a[i]] for an index already checked against [a.length]. *)
Definition at_index {A} `{!Inhabited A} (a : option (list A)) (i : nat) : A :=
  default [] a !!! i.

(** [error?.code === 'SERVER_ERROR' || (error?.message &&
    (error.message.includes('503') || error.message.includes('timeout') ||
     error.message.includes('network error')))] *)
Definition isRpcError (error : JsError) : bool :=
  match code error with
  | Some c => String.eqb c "SERVER_ERROR"
  | None => false
  end
  || (negb (String.eqb (message error) "") &&
      (includes (message error) "503"
       || includes (message error) "timeout"
       || includes (message error) "network error")).

(** ** Reading a property of an object literal *)

(** [obj[key]] on an object literal, for a string [key]: an own
    property, one inherited from [Object.prototype], or [undefined]. *)
Inductive Property (V : Type) := Own (v : V) | Inherited | Undefined.
Arguments Own {V} v.
Arguments Inherited {V}.
Arguments Undefined {V}.

Definition objectPrototypeNames : list string :=
  ["constructor"; "__defineGetter__"; "__defineSetter__"; "hasOwnProperty";
   "__lookupGetter__"; "__lookupSetter__"; "isPrototypeOf";
   "propertyIsEnumerable"; "toString"; "valueOf"; "__proto__";
   "toLocaleString"].

Definition getProperty {V} (obj : gmap string V) (key : string) : Property V :=
  match obj !! key with
  | Some v => Own v
  | None =>
      if bool_decide (key ∈ objectPrototypeNames) then Inherited else Undefined
  end.

(** A string where the value read off the address table is expected. *)
Definition ownAddress (contractAddress : string) : Property string :=
  Own contractAddress.
Coercion ownAddress : string >-> Property.

(** What [new ethers.Contract] throws for a target that is neither a
    string nor an object with a [getAddress] method, as the values
    inherited from [Object.prototype] are: an error with code
    [INVALID_ARGUMENT].  Of its message the fixed head is kept; the rest
    names the argument, the code and the library version, none of which
    holds a text the [catch] clause looks for. *)
Definition invalidTarget : JsError :=
  mkError (Some "INVALID_ARGUMENT") "invalid value for Contract target".

(** What the shared text of the two fetch functions depends on. *)
Class FetchEnv (R : Type) := {
  (** The object literal pushed for one record, fields in source order:
      contractHash, stars, summary, auditor, timestamp, chain. *)
  mkAudit : string -> Z -> string -> string -> Z -> string -> R;
  (** The last conjunct of the push guard, on [auditors[actualIdx]]:
      absent in [fetchAllChainAudits], the identity test in
      [fetchUserStats]. *)
  keep : string -> bool;
  (** [a.timestamp] *)
  timestampOf : R -> Z;
  world : World;
  CONTRACT_ADDRESSES : gmap string string
}.

Section Fetcher.
Context {R : Type} {env : FetchEnv R}.

(** The condition of the [if] inside the [forEach] callback. *)
Definition pushGuard (result : AuditsResult) (actualIdx : nat)
  : Completion bool :=
  and_then (lt_length actualIdx (stars result))
    (and_then (lt_length actualIdx (summaries result))
       (and_then (lt_length actualIdx (auditors result))
          (and_then (lt_length actualIdx (timestamps result))
             (Normal (keep (at_index (auditors result) actualIdx)))))).

Definition callback (chainKey : string) (result : AuditsResult) (i : nat)
    (hash : string) (idx : nat) : M R unit :=
  let actualIdx := i + idx in
  ok ← lift (pushGuard result actualIdx);
  if ok : bool then
    push (mkAudit hash
            (Number (at_index (stars result) actualIdx))
            (orEmpty (at_index (summaries result) actualIdx))
            (at_index (auditors result) actualIdx)
            (Number (at_index (timestamps result) actualIdx))
            chainKey)
  else mret tt.

(** No [.length] read throws from index [i] on. *)
Definition guardTotalFrom (result : AuditsResult) (i : nat) : Prop :=
  forall k, i <= k -> exists b, pushGuard result k = Normal b.

(** A record built by the callback while [chainKey] was the loop
    variable. *)
Definition taggedWith (chainKey : string) (r : R) : Prop :=
  exists hash st su au ts, r = mkAudit hash st su au ts chainKey.

(** What the callback pushes for index [k]. *)
Definition recordAt (chainKey : string) (result : AuditsResult) (k : nat)
    (hash : string) : list R :=
  match pushGuard result k with
  | Normal true =>
      [mkAudit hash
         (Number (at_index (stars result) k))
         (orEmpty (at_index (summaries result) k))
         (at_index (auditors result) k)
         (Number (at_index (timestamps result) k))
         chainKey]
  | _ => []
  end.

(** What the callbacks push for the hashes [l] sitting at indices [k],
    [k + 1], ... *)
Fixpoint recordsFrom (chainKey : string) (result : AuditsResult) (k : nat)
    (l : list string) : list R :=
  match l with
  | [] => []
  | hash :: l' =>
      recordAt chainKey result k hash ++ recordsFrom chainKey result (S k) l'
  end.

(** The records of a response read index by index. *)
Definition recordsOfResponse (chainKey : string) (hashes : list string)
    (st : list Z) (su au : list string) (ts : list Z) : list R :=
  imap (fun k hash =>
          mkAudit hash (Number (st !!! k)) (orEmpty (su !!! k)) (au !!! k)
            (Number (ts !!! k)) chainKey) hashes.

(** [for (let i = ...; i < contractHashes.length; i += batchSize)] *)
Equations? forBatches (chainKey : string) (result : AuditsResult)
    (hashes : list string) (i : nat) (s : State R)
  : Completion unit * State R by wf (length hashes - i) lt :=
  forBatches chainKey result hashes i s with decide (i < length hashes) := {
    | right _ := (Normal tt, s)
    | left _ with (forEach (callback chainKey result i)
                     (slice i (i + batchSize) hashes) 0 ;;
                   await BatchPause 10%N) s := {
        | (Normal _, s') := forBatches chainKey result hashes (i + batchSize) s'
        | (Throw e, s') := (Throw e, s') } }.
Proof. unfold batchSize. lia. Qed.

(** [new ethers.JsonRpcProvider(rpcUrl, ...)] and [new ethers.Contract(
    contractAddress, ...)] at time [t]: the network is asked about an
    address string only. *)
Definition newContract (rpcUrl : string) (contractAddress : Property string)
    (t : N) : Completion Contract :=
  match contractAddress with
  | Own address => world rpcUrl address t
  | _ => Throw invalidTarget
  end.

(** The body of the [try] block: it falls out normally exactly when the
    source reaches [success = true; break]. *)
Definition tryBody (chainKey : string) (contractAddress : Property string)
    (rpcUrl : string) (retryCount : nat) : M R unit :=
  console (LogAttemptRpc rpcUrl (retryCount + 1) maxRetries) ;;
  t ← currentTime;
  contract ← lift (newContract rpcUrl contractAddress t);
  totalContracts ←
    await_race CountQuery (getTotalContracts contract t) 10000%N
      "getTotalContracts timeout";
  let totalContractsNum := Number totalContracts in
  console (LogTotal chainKey totalContractsNum) ;;
  if (totalContractsNum =? 0)%Z then console (LogNoContracts chainKey)
  else
    t' ← currentTime;
    result ←
      await_race BulkFetch (getAllAudits contract t' 0 totalContractsNum)
        20000%N "getAllAudits timeout";
    match result with
    | None => throw (Error "Invalid response format")
    | Some res =>
        match contractHashes res with
        | None => throw (Error "Invalid response format")
        | Some hashes =>
            forBatches chainKey res hashes 0 ;;
            console (LogProcessed (length hashes) chainKey)
        end
    end.

Definition catchClause (chainKey rpcUrl : string) (error : JsError)
  : M R unit :=
  if isRpcError error then console (WarnRpcFailed rpcUrl (message error))
  else console (ErrorOn chainKey error).

(** [for (const rpcUrl of chainData.rpcUrls) { try ... catch ... }]; the
    value is [success] when the loop is left. *)
Fixpoint forRpcUrls (chainKey : string) (contractAddress : Property string)
    (retryCount : nat) (urls : list string) : M R bool :=
  match urls with
  | [] => mret false
  | rpcUrl :: rest =>
      success ←
        try_catch
          (tryBody chainKey contractAddress rpcUrl retryCount ;; mret true)
          (fun error => catchClause chainKey rpcUrl error ;; mret false);
      if success : bool then mret true
      else forRpcUrls chainKey contractAddress retryCount rest
  end.

(** [while (!success && retryCount < maxRetries)], entered with [success]
    false; the value is [success] when the loop is left. *)
Equations? whileLoop (chainKey : string) (chainData : ChainConfig)
    (contractAddress : Property string) (retryCount : nat) (s : State R)
  : Completion bool * State R by wf (maxRetries - retryCount) lt :=
  whileLoop chainKey chainData contractAddress retryCount s with
      decide (retryCount < maxRetries) := {
    | right _ := (Normal false, s)
    | left _ with
        forRpcUrls chainKey contractAddress retryCount (rpcUrls chainData) s := {
        | (Throw e, s1) := (Throw e, s1)
        | (Normal true, s1) := (Normal true, s1)
        | (Normal false, s1) with decide (S retryCount < maxRetries) := {
            | left _ with
                (let delay := (baseDelay * 2 ^ N.of_nat (S retryCount))%N in
                 console (LogRetrying chainKey delay) ;;
                 await Backoff delay) s1 := {
                | (Normal _, s2) :=
                    whileLoop chainKey chainData contractAddress
                      (S retryCount) s2
                | (Throw e, s2) := (Throw e, s2) }
            | right _ :=
                whileLoop chainKey chainData contractAddress (S retryCount)
                  s1 } } }.
Proof. all: lia. Qed.

(** [roundStarts ... s0 retryCount s]: the loop entered in state [s0]
    (with [retryCount = 0]) evaluates its condition in state [s] with
    the counter at [retryCount], every earlier round having failed and
    been followed by its backoff wait. *)
Inductive roundStarts (chainKey : string) (chainData : ChainConfig)
    (contractAddress : Property string) (s0 : State R)
  : nat -> State R -> Prop :=
| round_first : roundStarts chainKey chainData contractAddress s0 0 s0
| round_next retryCount s s1 :
    roundStarts chainKey chainData contractAddress s0 retryCount s ->
    forRpcUrls chainKey contractAddress retryCount (rpcUrls chainData) s
      = (Normal false, s1) ->
    S retryCount < maxRetries ->
    let delay := (baseDelay * 2 ^ N.of_nat (S retryCount))%N in
    roundStarts chainKey chainData contractAddress s0 (S retryCount)
      (mkState (allAudits s1) (clock s1 + delay)
         (trace s1 ++ [LogRetrying chainKey delay; Awaited Backoff delay])).

(** [!contractAddress]: it holds for [undefined] and for the empty
    string; a value inherited from [Object.prototype] is truthy. *)
Definition falsy (contractAddress : Property string) : bool :=
  match contractAddress with
  | Own address => String.eqb address ""
  | Inherited => false
  | Undefined => true
  end.

(** One iteration of [for (const [chainKey, chainData] of
    Object.entries(CHAIN_CONFIG))]. *)
Definition forChain (entry : string * ChainConfig) : M R unit :=
  let '(chainKey, chainData) := entry in
  console (LogFetchFrom chainKey) ;;
  let contractAddress := getProperty CONTRACT_ADDRESSES chainKey in
  if falsy contractAddress then console (LogNoAddress chainKey)
  else
    success ← whileLoop chainKey chainData contractAddress 0;
    if success : bool then mret tt
    else console (ErrorFailed chainKey maxRetries).

Fixpoint forChains (entries : list (string * ChainConfig)) : M R unit :=
  match entries with
  | [] => mret tt
  | entry :: rest => forChain entry ;; forChains rest
  end.

(** What each chain pushed, chain by chain: the records of a chain are
    those its iteration pushes when started at the time the previous
    iterations ended. *)
Fixpoint contributions (entries : list (string * ChainConfig)) (t : N)
  : list (string * list R) :=
  match entries with
  | [] => []
  | entry :: rest =>
      let s := (forChain entry (fresh t)).2 in
      (entry.1, allAudits s) :: contributions rest (clock s)
  end.

(** [allAudits.sort((a, b) => b.timestamp - a.timestamp)], in place.  The
    difference of two doubles has the sign of the exact difference. *)
Definition byTimestampDesc (a b : R) : Z := (timestampOf b - timestampOf a)%Z.

Definition sortAudits : M R unit := fun s =>
  (Normal tt,
   mkState (sort byTimestampDesc (allAudits s)) (clock s) (trace s)).

Definition readAudits : M R (list R) := fun s => (Normal (allAudits s), s).

(** The function body from the chain loop up to and including the
    sort. *)
Definition fetchSorted (CHAIN_CONFIG : list (string * ChainConfig))
  : M R (list R) :=
  forChains CHAIN_CONFIG ;; sortAudits ;; readAudits.
End Fetcher.

(** ** The reports page *)

Record AuditReport := mkAuditReport {
  contractHash : string;
  report_stars : Z;
  summary : string;
  auditor : string;
  timestamp : Z;
  chain : string
}.

Definition reportsEnv (world : World) (CONTRACT_ADDRESSES : gmap string string)
  : FetchEnv AuditReport :=
  {| mkAudit := mkAuditReport;
     keep := fun _ => true;
     timestampOf := timestamp;
     world := world;
     CONTRACT_ADDRESSES := CONTRACT_ADDRESSES |}.

(** [fetchAllChainAudits]: the value is the array passed to [setReports].
    [CHAIN_CONFIG] is [Object.entries(CHAIN_CONFIG)], in iteration order. *)
Definition fetchAllChainAudits (world : World)
    (CONTRACT_ADDRESSES : gmap string string)
    (CHAIN_CONFIG : list (string * ChainConfig))
  : Completion (list AuditReport) * State AuditReport :=
  fetchSorted (env := reportsEnv world CONTRACT_ADDRESSES) CHAIN_CONFIG
    (fresh 0).

Inductive DateRange := RangeAll | RangeDay | RangeWeek | RangeMonth.

(** [filters.chain] is ['all'] or a chain key; ['all'] is kept as the
    string it is. *)
Record FilterState := mkFilters {
  search : string;
  filter_chain : string;
  dateRange : DateRange;
  minStars : Z
}.

(** [ranges[filters.dateRange]], in seconds. *)
Definition rangeSeconds (d : DateRange) : Z :=
  match d with
  | RangeAll => 0
  | RangeDay => 86400
  | RangeWeek => 604800
  | RangeMonth => 2592000
  end.

(** The callback of [reports.filter] in [getFilteredReports].  [nowMs] is
    [Date.now()]; [now - report.timestamp > range] with [now = nowMs / 1000]
    is decided on the integers, where it is exact. *)
Definition passesFilters (nowMs : Z) (filters : FilterState)
    (report : AuditReport) : bool :=
  if negb (String.eqb (search filters) "")
     && negb (includes (toLowerCase (contractHash report))
                (toLowerCase (search filters)))
     && negb (includes (toLowerCase (auditor report))
                (toLowerCase (search filters)))
  then false
  else if negb (String.eqb (filter_chain filters) "all")
          && negb (String.eqb (chain report) (filter_chain filters))
  then false
  else if (0 <? minStars filters)%Z
          && (report_stars report <? minStars filters)%Z
  then false
  else
    match dateRange filters with
    | RangeAll => true
    | d => negb (1000 * rangeSeconds d <? nowMs - 1000 * timestamp report)%Z
    end.

Definition getFilteredReports (nowMs : Z) (filters : FilterState)
    (reports : list AuditReport) : list AuditReport :=
  filter (fun report => passesFilters nowMs filters report) reports.

(** ** The profile page *)

Record UserAudit := mkUserAudit {
  ua_contractHash : string;
  ua_stars : Z;
  ua_summary : string;
  ua_timestamp : Z;
  ua_chain : string
}.

(** The push guard's last conjunct:
    [auditors[actualIdx].toLowerCase() === userAddress.toLowerCase()]. *)
Definition sameAddress (userAddress auditor : string) : bool :=
  String.eqb (toLowerCase auditor) (toLowerCase userAddress).

Definition profileEnv (world : World) (CONTRACT_ADDRESSES : gmap string string)
    (userAddress : string) : FetchEnv UserAudit :=
  {| mkAudit := fun hash stars summary _ timestamp chain =>
                  mkUserAudit hash stars summary timestamp chain;
     keep := sameAddress userAddress;
     timestampOf := ua_timestamp;
     world := world;
     CONTRACT_ADDRESSES := CONTRACT_ADDRESSES |}.

(** A value of [chainCounts]: a count, or, once [+ 1] has met the value
    [Object.prototype] holds under [name], the text of that value followed
    by [ones] times the digit 1. *)
Inductive CountValue :=
| Count (n : nat)
| InheritedText (name : string) (ones : nat).

(** [chainCounts[chainKey] = (chainCounts[chainKey] || 0) + 1] on the
    object literal [chainCounts].  A count is a number and is added to; a
    text, or an inherited function or object, is truthy and [+ 1] appends
    to its text.  The assignment makes an own property, except under
    [__proto__], whose setter ignores a string. *)
Definition bump (chainCounts : gmap string CountValue) (chainKey : string)
  : gmap string CountValue :=
  match getProperty chainCounts chainKey with
  | Own (Count n) => <[chainKey := Count (n + 1)]> chainCounts
  | Own (InheritedText name ones) =>
      <[chainKey := InheritedText name (ones + 1)]> chainCounts
  | Inherited =>
      if String.eqb chainKey "__proto__" then chainCounts
      else <[chainKey := InheritedText chainKey 1]> chainCounts
  | Undefined => <[chainKey := Count 1]> chainCounts
  end.

(** The argument of [setStats].  [averageStars] is the double
    [totalStars / totalAudits] (0 when there is no audit); its numerator is
    kept instead. *)
Record AuditStats := mkStats {
  totalAudits : nat;
  totalStars : Z;
  chainBreakdown : gmap string CountValue;
  recentAudits : list UserAudit
}.

(** [fetchUserStats(userAddress)].  The source bumps [chainCounts[chainKey]]
    and adds [Number(stars[actualIdx])] to the double [totalStars] in the
    callback, right after each push, with the values it has just pushed;
    here both are folded over [allAudits] in the order pushed, before the
    sort.  The sum of two integer-valued doubles is the double nearest to
    their exact sum; it stays finite, an array holding fewer than [2^32]
    values and each of these being below [2^256] in size. *)
Definition fetchUserStats (world : World)
    (CONTRACT_ADDRESSES : gmap string string)
    (CHAIN_CONFIG : list (string * ChainConfig)) (userAddress : string)
  : Completion AuditStats * State UserAudit :=
  ((forChains (env := profileEnv world CONTRACT_ADDRESSES userAddress)
      CHAIN_CONFIG ;;
    pushed ← readAudits;
    sortAudits (env := profileEnv world CONTRACT_ADDRESSES userAddress) ;;
    allAudits ← readAudits;
    mret (mkStats (length pushed)
            (foldl (fun totalStars a => Number (totalStars + ua_stars a))
               0%Z pushed)
            (foldl (fun chainCounts a => bump chainCounts (ua_chain a))
               ∅ pushed)
            (slice 0 5 allAudits))) : M UserAudit AuditStats)
    (fresh 0).

(** ** The profile view as a view of the reports *)

(** A report without its [auditor] field. *)
Definition strip (r : AuditReport) : UserAudit :=
  mkUserAudit (contractHash r) (report_stars r) (summary r) (timestamp r)
    (chain r).

(** The reports whose auditor is [userAddress] up to letter case, in
    order, stripped. *)
Definition viewOf (userAddress : string) (l : list AuditReport)
  : list UserAudit :=
  strip <$> filter (fun r => sameAddress userAddress (auditor r)) l.

Definition sameRun (userAddress : string) (s1 : State AuditReport)
    (s2 : State UserAudit) : Prop :=
  allAudits s2 = viewOf userAddress (allAudits s1)
  /\ clock s2 = clock s1 /\ trace s2 = trace s1.

(** Two computations, one on each page, that complete alike and keep the
    states related. *)
Definition sim {A} (userAddress : string) (c1 : M AuditReport A)
    (c2 : M UserAudit A) : Prop :=
  forall s1 s2, sameRun userAddress s1 s2 ->
    (c1 s1).1 = (c2 s2).1 /\ sameRun userAddress (c1 s1).2 (c2 s2).2.

(** ** Sample configurations and networks *)

(** The chain table of the repository. *)
Definition monadTestnet : ChainConfig :=
  mkChain "0x279F" "Monad Testnet" (mkCurrency "Monad" "MON" 18)
    ["https://monad-testnet.g.alchemy.com/v2/cPagatQQ9SL_dZvqKBJYoc_dG2cHbmcA";
     "https://testnet-rpc.monad.xyz"]
    ["https://monad-testnet.socialscan.io"] "/chains/monad.png".

Definition CHAIN_CONFIG_entries : list (string * ChainConfig) :=
  [("monadTestnet", monadTestnet)].

(** A second chain and an address table, to exercise the chain loop. *)
Definition otherChain : ChainConfig :=
  mkChain "0x1" "Other" (mkCurrency "Other" "OTH" 18)
    ["https://other.example/rpc"] [] "/chains/other.png".

Definition twoChains : list (string * ChainConfig) :=
  [("monadTestnet", monadTestnet); ("other", otherChain)].

Definition sampleAddresses : gmap string string :=
  {[ "monadTestnet" := "0xRegistry1"; "other" := "0xRegistry2" ]}.

(** Every count query hangs. *)
Definition deadWorld : World := fun _ _ _ =>
  Normal (mkContract (fun _ => Pending) (fun _ _ _ => Pending)).

(** The registry is empty: the count query answers 0 after 5 ms. *)
Definition emptyWorld : World := fun _ _ _ =>
  Normal (mkContract (fun _ => Settles 5 (Normal 0%Z)) (fun _ _ _ => Pending)).

(** A response whose [stars] array is one short. *)
Definition shortStars : AuditsResult :=
  mkResult (Some ["0xh1"; "0xh2"; "0xh3"]) (Some [5; 4]%Z)
    (Some ["ok"; ""; "bad"]) (Some ["0xA1"; "0xa2"; "0xa3"])
    (Some [10; 20; 30]%Z).

Definition shortStarsWorld : World := fun _ _ _ =>
  Normal (mkContract (fun _ => Settles 5 (Normal 3%Z))
            (fun _ _ _ => Settles 7 (Normal (Some shortStars)))).

(** A response of 120 records, record [k] with timestamp [k]. *)
Definition hashes120 : list string :=
  (fun k => String (ascii_of_nat k) "") <$> seq 0 120.

Definition result120 : AuditsResult :=
  mkResult (Some hashes120) (Some (replicate 120 3%Z))
    (Some (replicate 120 "fine")) (Some (replicate 120 "0xAuditor"))
    (Some (Z.of_nat <$> seq 0 120)).

Definition world120 : World := fun _ _ _ =>
  Normal (mkContract (fun _ => Settles 5 (Normal 120%Z))
            (fun _ _ _ => Settles 7 (Normal (Some result120)))).

(** The endpoints of [monadTestnet] hang; the one of [otherChain] serves
    [shortStars]. *)
Definition mixedWorld : World := fun rpcUrl contractAddress t =>
  if String.eqb rpcUrl "https://other.example/rpc"
  then shortStarsWorld rpcUrl contractAddress t
  else deadWorld rpcUrl contractAddress t.

(** ** The filter panel's initial state *)

(** The argument of [useState<FilterState>] in the reports page. *)
Definition initialFilters : FilterState := mkFilters "" "all" RangeAll 0.

(** ** What a chain's count holds *)

(** The value of [chainCounts[chainKey]] after [n] bumps of that key, the
    object having started empty; [None] when there is no own property. *)
Definition chainCountAfter (chainKey : string) (n : nat) : option CountValue :=
  match n with
  | 0 => None
  | S _ =>
      if bool_decide (chainKey ∈ objectPrototypeNames) then
        if String.eqb chainKey "__proto__" then None
        else Some (InheritedText chainKey n)
      else Some (Count n)
  end.

(** ** More sample networks *)

(** The first endpoint of [monadTestnet] hangs, the second one serves
    [shortStars]. *)
Definition failoverWorld : World := fun rpcUrl contractAddress t =>
  if String.eqb rpcUrl "https://testnet-rpc.monad.xyz"
  then shortStarsWorld rpcUrl contractAddress t
  else deadWorld rpcUrl contractAddress t.

(** A chain with an empty endpoint list. *)
Definition noEndpoints : ChainConfig :=
  mkChain "0x0" "None" (mkCurrency "None" "NON" 18) [] [] "/chains/none.png".

(** ** The calls of an attempt *)

(** Where an attempt stands: none begun, announced, count queried,
    audits fetched. *)
Inductive Phase := Idle | Announced | Queried | Fetched.

(** The phase after an event.  An attempt may be announced at any time;
    the count query belongs to an attempt that is announced and has made
    no call yet, the bulk fetch to an attempt that has made its count
    query and no other call; anywhere else either call is out of order,
    [None].  Other events leave the phase as it is. *)
Definition afterEvent (phase : Phase) (e : Event) : option Phase :=
  match e with
  | LogAttemptRpc _ _ _ => Some Announced
  | Awaited CountQuery _ =>
      match phase with Announced => Some Queried | _ => None end
  | Awaited BulkFetch _ =>
      match phase with Queried => Some Fetched | _ => None end
  | _ => Some phase
  end.

Fixpoint afterTrace (phase : Phase) (tr : list Event) : option Phase :=
  match tr with
  | [] => Some phase
  | e :: rest =>
      match afterEvent phase e with
      | Some phase' => afterTrace phase' rest
      | None => None
      end
  end.

(** A trace whose calls are in order whatever went before it. *)
Definition orderly (tr : list Event) : Prop :=
  forall phase, is_Some (afterTrace phase tr).


(** ** Exporting a report *)

Definition TypeError_reading (name : string) : JsError :=
  mkError None
    ("Cannot read properties of undefined (reading '" +:+ name +:+ "')").

(** [String.prototype.slice(b, e)] for [0 <= b <= e]. *)
Definition slice_string (b e : nat) (s : string) : string :=
  substring b (e - b) s.

(** The [network] object of an exported report.  A field read off an
    inherited value is [undefined], here [None]. *)
Record Network := mkNetwork {
  net_name : option string;
  net_chainId : option string;
  net_contractAddress : Property string
}.

Record FormattedReport := mkFormatted {
  fr_contractHash : string;
  fr_stars : Z;
  fr_summary : string;
  fr_auditor : string;
  fr_timestamp : Z;
  fr_chain : string;
  fr_chainName : option string;
  exportDate : string;
  network : Network;
  auditDate : string
}.

(** What [exportReport] asks of the browser. *)
Record Browser := mkBrowser {
  (** [new Date().toISOString()] at time [t] *)
  toISOString : N -> string;
  (** [new Date(ms).toLocaleString()] *)
  toLocaleString : Z -> string;
  (** The [try] block, from [new Blob] to [URL.revokeObjectURL], for a
      file name and a report: [None] when every statement completes,
      the error thrown otherwise. *)
  download : string -> FormattedReport -> option JsError
}.

Inductive ExportEvent :=
| Download (filename : string) (formattedReport : FormattedReport)
| ErrorExporting (error : JsError).

(** The object literal [formattedReport].  [CHAIN_CONFIG[report.chain]]
    is read first, so an [undefined] there throws before anything else
    happens.  [report.stars] and [report.timestamp] are numbers already,
    which [Number] leaves as they are. *)
Definition formatReport (browser : Browser)
    (CHAIN_CONFIG : list (string * ChainConfig))
    (CONTRACT_ADDRESSES : gmap string string) (t : N) (report : AuditReport)
  : Completion FormattedReport :=
  let field (f : ChainConfig -> string) :=
    match getProperty (list_to_map CHAIN_CONFIG) (chain report) with
    | Own chainData => Some (f chainData)
    | _ => None
    end in
  match getProperty (list_to_map CHAIN_CONFIG) (chain report) with
  | Undefined => Throw (TypeError_reading "chainName")
  | _ =>
      Normal
        (mkFormatted (contractHash report) (report_stars report)
           (summary report) (auditor report) (timestamp report) (chain report)
           (field chainName)
           (toISOString browser t)
           (mkNetwork (field chainName) (field chainId)
              (getProperty CONTRACT_ADDRESSES (chain report)))
           (toLocaleString browser (Number (timestamp report * 1000))))
  end.

(** [exportReport(report)] at time [t]: what it asks the browser to
    download and what it prints, or the error it throws. *)
Definition exportReport (browser : Browser)
    (CHAIN_CONFIG : list (string * ChainConfig))
    (CONTRACT_ADDRESSES : gmap string string) (t : N) (report : AuditReport)
  : Completion (list ExportEvent) :=
  match formatReport browser CHAIN_CONFIG CONTRACT_ADDRESSES t report with
  | Throw e => Throw e
  | Normal formattedReport =>
      let filename :=
        "audit-" +:+ slice_string 0 8 (contractHash report) +:+ ".json" in
      Normal
        (Download filename formattedReport ::
         match download browser filename formattedReport with
         | None => []
         | Some error => [ErrorExporting error]
         end)
  end.

(** A browser in which every download fails. *)
Definition brokenBrowser : Browser :=
  mkBrowser (fun _ => "2025-01-01T00:00:00.000Z") (fun _ => "1/1/2025")
    (fun _ _ => Some (Error "Blob is not defined")).

(** ** The chain lookups of the wallet utilities *)

(** A JavaScript number as the lookups compare it: [NaN], an
    integer-valued double (the two zeros together), another finite double
    [m * 2^-e] with [m] odd, or an infinity. *)
Inductive number :=
| NaN
| Int (z : Z)
| Frac (m : Z) (e : positive)
| Infinity (negative : bool).

(** [a === b] on two numbers. *)
Definition strictEquals (a b : number) : bool :=
  match a, b with
  | Int x, Int y => (x =? y)%Z
  | Frac m e, Frac m' e' => (m =? m')%Z && (e =? e')%positive
  | Infinity n, Infinity n' => Bool.eqb n n'
  | _, _ => false
  end.

(** The double nearest to an integer. *)
Definition toNumber (z : Z) : number :=
  let r := Number z in
  if (Z.abs r <? 2 ^ 1024)%Z then Int r else Infinity (z <? 0)%Z.

(** The ASCII part of [StrWhiteSpaceChar]; chain ids are ASCII strings. *)
Definition isWhiteSpace (c : ascii) : bool :=
  let n := nat_of_ascii c in
  ((9 <=? n) && (n <=? 13)) || (n =? 32).

Fixpoint trimStart (s : string) : string :=
  match s with
  | String c rest => if isWhiteSpace c then trimStart rest else s
  | EmptyString => s
  end.

Definition hexDigit (c : ascii) : option Z :=
  let n := nat_of_ascii c in
  if (48 <=? n) && (n <=? 57) then Some (Z.of_nat n - 48)%Z
  else if (65 <=? n) && (n <=? 70) then Some (Z.of_nat n - 55)%Z
  else if (97 <=? n) && (n <=? 102) then Some (Z.of_nat n - 87)%Z
  else None.

(** The value of the longest prefix of hexadecimal digits, after the
    digits already read; [None] when no digit has been read. *)
Fixpoint hexPrefix (read : option Z) (s : string) : option Z :=
  match s with
  | String c rest =>
      match hexDigit c with
      | Some d => hexPrefix (Some (16 * default 0%Z read + d)%Z) rest
      | None => read
      end
  | EmptyString => read
  end.

Definition stripSign (s : string) : bool * string :=
  match s with
  | String c rest =>
      if (c =? "-")%char then (true, rest)
      else if (c =? "+")%char then (false, rest)
      else (false, s)
  | EmptyString => (false, s)
  end.

Definition strip0x (s : string) : string :=
  match s with
  | String c1 (String c2 rest) =>
      if (c1 =? "0")%char && ((c2 =? "x")%char || (c2 =? "X")%char)
      then rest else s
  | _ => s
  end.

(** [parseInt(s, 16)]: leading white space, a sign, ["0x"] or ["0X"],
    then the longest run of hexadecimal digits; [NaN] when that run is
    empty. *)
Definition parseInt16 (s : string) : number :=
  let '(negative, s1) := stripSign (trimStart s) in
  match hexPrefix None (strip0x s1) with
  | None => NaN
  | Some m => toNumber (if negative : bool then - m else m)
  end.

(** [isSupportedNetwork(chainId)], over [Object.values(CHAIN_CONFIG)]. *)
Definition isSupportedNetwork (CHAIN_CONFIG : list (string * ChainConfig))
    (id : string) : bool :=
  existsb (fun chain => String.eqb (toLowerCase (chainId chain)) (toLowerCase id))
    CHAIN_CONFIG.*2.

(** [getChainKeyFromChainId(chainId)]; [None] is [null]. *)
Definition getChainKeyFromChainId (CHAIN_CONFIG : list (string * ChainConfig))
    (id : number) : option string :=
  match find (fun '(_, config) => strictEquals (parseInt16 (chainId config)) id)
          CHAIN_CONFIG with
  | Some chainEntry => Some chainEntry.1
  | None => None
  end.

(** [getChainConfigFromChainId(chainId)]; [None] is [null].  The key is
    tested for truthiness, which the empty string fails. *)
Definition getChainConfigFromChainId (CHAIN_CONFIG : list (string * ChainConfig))
    (id : number) : option (Property ChainConfig) :=
  match getChainKeyFromChainId CHAIN_CONFIG id with
  | Some chainKey =>
      if String.eqb chainKey "" then None
      else Some (getProperty (list_to_map CHAIN_CONFIG) chainKey)
  | None => None
  end.

(** A configuration with an entry under the empty key. *)
Definition unnamedChain : list (string * ChainConfig) :=
  [("", otherChain); ("monadTestnet", monadTestnet)].

(** ** Switching the wallet's network *)

(** A value thrown at one of [switchNetwork]'s [await]s, as the [catch]
    clauses read it: [error.code] when that is an integer, and a
    message. *)
Record EthereumError := mkEthereumError {
  eth_code : option Z;
  eth_message : string
}.

(** The two requests [switchNetwork] sends, with their parameters.  A
    field read off an inherited value of [CHAIN_CONFIG[chainKey]] is
    [undefined], here [None]. *)
Inductive WalletRequest :=
| wallet_switchEthereumChain (chainId : option string)
| wallet_addEthereumChain (chainId chainName : option string)
    (nativeCurrency : option NativeCurrency)
    (rpcUrls blockExplorerUrls : option (list string)).

(** How an awaited promise ends, if it does. *)
Inductive Settlement :=
| Fulfilled
| Rejected (error : EthereumError)
| Unsettled.

(** [window.ethereum], by what its [request] answers. *)
Definition Ethereum : Type := WalletRequest -> Settlement.

Inductive WalletEvent :=
| Requested (request : WalletRequest)
| ErrorAddingChain (addError : EthereumError)
| ErrorSwitchingChain (switchError : EthereumError).

(** [switchNetwork(chainKey)]: how the promise it returns ends, and the
    requests sent and messages printed on the way.  With
    [CHAIN_CONFIG[chainKey]] undefined, reading [chain.chainId] throws
    inside the [try] block, before any request is sent. *)
Definition switchNetwork (ethereum : option Ethereum)
    (CHAIN_CONFIG : list (string * ChainConfig)) (chainKey : string)
  : Settlement * list WalletEvent :=
  match ethereum with
  | None => (Rejected (mkEthereumError None "Please install MetaMask"), [])
  | Some ethereum =>
      let chain := getProperty (list_to_map CHAIN_CONFIG) chainKey in
      let field {A} (f : ChainConfig -> A) : option A :=
        match chain with
        | Own chainData => Some (f chainData)
        | _ => None
        end in
      let switch := wallet_switchEthereumChain (field chainId) in
      let '(sent, settled) :=
        match chain with
        | Undefined =>
            ([], Rejected (mkEthereumError None
                             (message (TypeError_reading "chainId"))))
        | _ => ([Requested switch], ethereum switch)
        end in
      match settled with
      | Rejected switchError =>
          if decide (eth_code switchError = Some 4902%Z) then
            let add :=
              wallet_addEthereumChain (field chainId) (field chainName)
                (field nativeCurrency) (field rpcUrls)
                (field blockExplorerUrls) in
            match ethereum add with
            | Rejected addError =>
                (Rejected addError,
                 sent ++ [Requested add; ErrorAddingChain addError])
            | settled' => (settled', sent ++ [Requested add])
            end
          else
            (Rejected switchError, sent ++ [ErrorSwitchingChain switchError])
      | _ => (settled, sent)
      end
  end.

(** The requests sent and the errors printed, in order. *)
Definition requestsOf (events : list WalletEvent) : list WalletRequest :=
  omap (fun e => match e with Requested q => Some q | _ => None end) events.

Definition errorsOf (events : list WalletEvent) : list EthereumError :=
  omap (fun e => match e with
                 | ErrorAddingChain error | ErrorSwitchingChain error =>
                     Some error
                 | Requested _ => None
                 end) events.

(** A wallet that does not know the chain and accepts to add it. *)
Definition newUserWallet : Ethereum := fun request =>
  match request with
  | wallet_switchEthereumChain _ =>
      Rejected (mkEthereumError (Some 4902%Z) "Unrecognized chain ID")
  | wallet_addEthereumChain _ _ _ _ _ => Fulfilled
  end.

(** * Proofs *)

(** ** The value model on examples *)

Example Number_exact : Number 1700000000 = 1700000000%Z.
Proof. reflexivity. Qed.

Example Number_ties_to_even :
  Number (2 ^ 53 + 1) = (2 ^ 53)%Z /\ Number (2 ^ 53 + 3) = (2 ^ 53 + 4)%Z.
Proof. split; reflexivity. Qed.

Lemma Number_small x : (Z.abs x < 2 ^ 53)%Z -> Number x = x.
Proof.
  intros Hx. unfold Number. by destruct (Z.ltb_spec (Z.abs x) (2 ^ 53)); [|lia].
Qed.

Example includes_timeout : includes "getAllAudits timeout" "timeout" = true.
Proof. reflexivity. Qed.

Example toLowerCase_address : toLowerCase "0xAbCdEf09" = "0xabcdef09".
Proof. reflexivity. Qed.

Example isRpcError_timeout :
  isRpcError (Error "getTotalContracts timeout") = true
  /\ isRpcError (Error "Invalid response format") = false
  /\ isRpcError TypeError_length = false
  /\ isRpcError (mkError (Some "SERVER_ERROR") "") = true.
Proof. repeat split. Qed.

(** Equal keys keep their order. *)
Example sort_stable :
  sort (fun a b : Z * string => (b.1 - a.1)%Z)
    [(1, "a"); (3, "b"); (1, "c"); (3, "d"); (2, "e")]%Z
  = [(3, "b"); (3, "d"); (2, "e"); (1, "a"); (1, "c")]%Z.
Proof. reflexivity. Qed.

(** ** The fetch on an example *)

(** [monadTestnet] fails on both endpoints in all three rounds; [other]
    answers at once with [shortStars].  The two records of [other] are
    reported, the more recent first. *)
Example fetch_mixedWorld :
  (fetchAllChainAudits mixedWorld sampleAddresses twoChains).1 =
    Normal [mkAuditReport "0xh2" 4 "" "0xa2" 20 "other";
            mkAuditReport "0xh1" 5 "ok" "0xA1" 10 "other"].
Proof. reflexivity. Qed.

(** The same run takes 6 count-query timeouts, the two backoff waits, and
    the three waits of the successful attempt. *)
Example fetch_mixedWorld_clock :
  clock (fetchAllChainAudits mixedWorld sampleAddresses twoChains).2
  = (6 * 10000 + 4000 + 8000 + (5 + 7 + 10))%N.
Proof. reflexivity. Qed.

(** The profile of ["0xA2"] on the same network. *)
Example fetchUserStats_mixedWorld :
  (fetchUserStats mixedWorld sampleAddresses twoChains "0xA2").1 =
    Normal (mkStats 1 4 {[ "other" := Count 1 ]}
              [mkUserAudit "0xh2" 4 "" 20 "other"]).
Proof. vm_compute. reflexivity. Qed.

(** ** Runs only append *)

Lemma frame_fresh {R} (s : State R) : frame s (fresh (clock s)) = s.
Proof. destruct s; unfold frame, fresh; simpl. by rewrite !app_nil_r. Qed.

Lemma frame_assoc {R} (s s0 s1 : State R) :
  frame (frame s s0) s1 = frame s (frame s0 s1).
Proof. unfold frame; simpl. by rewrite !app_assoc. Qed.

Lemma frame_fresh_l {R} t (s : State R) : frame (fresh t) s = s.
Proof. by destruct s. Qed.

Lemma framed_ret {R A} (a : A) : framed (mret a : M R A).
Proof. intros s. unfold mret, M_ret; simpl. by rewrite frame_fresh. Qed.

Lemma framed_throw {R A} e : framed (throw e : M R A).
Proof. intros s. unfold throw; simpl. by rewrite frame_fresh. Qed.

Lemma framed_lift {R A} (c : Completion A) : framed (lift c : M R A).
Proof. intros s. unfold lift; simpl. by rewrite frame_fresh. Qed.

Lemma framed_currentTime {R} : framed (currentTime : M R N).
Proof. intros s. unfold currentTime; simpl. by rewrite frame_fresh. Qed.

Lemma framed_console {R} e : framed (console e : M R unit).
Proof. intros s. unfold console, frame; simpl. by rewrite app_nil_r. Qed.

Lemma framed_await {R} what d : framed (await what d : M R unit).
Proof. intros s. unfold await, frame; simpl. by rewrite app_nil_r. Qed.

Lemma framed_push {R} (r : R) : framed (push r).
Proof. intros s. unfold push, frame; simpl. by rewrite app_nil_r. Qed.

Lemma framed_bind {R A B} (c : M R A) (k : A -> M R B) :
  framed c -> (forall a, framed (k a)) -> framed (c ≫= k).
Proof.
  intros Hc Hk s. unfold mbind, M_bind. rewrite (Hc s).
  destruct (c (fresh (clock s))) as [[a|e] s0]; simpl; [|done].
  rewrite (Hk a (frame s s0)); simpl.
  rewrite (Hk a s0); simpl. by rewrite frame_assoc.
Qed.

Lemma framed_try_catch {R A} (c : M R A) (h : JsError -> M R A) :
  framed c -> (forall e, framed (h e)) -> framed (try_catch c h).
Proof.
  intros Hc Hh s. unfold try_catch. rewrite (Hc s).
  destruct (c (fresh (clock s))) as [[a|e] s0]; simpl; [done|].
  rewrite (Hh e (frame s s0)); simpl.
  rewrite (Hh e s0); simpl. by rewrite frame_assoc.
Qed.

Lemma framed_await_race {R A} what (p : Call A) timeout msg :
  framed (await_race what p timeout msg : M R A).
Proof.
  unfold await_race. destruct (race_timeout p timeout msg).
  apply framed_bind; [apply framed_await | intros; apply framed_lift].
Qed.

Lemma framed_forEach {R A} (f : A -> nat -> M R unit) l idx :
  (forall x i, framed (f x i)) -> framed (forEach f l idx).
Proof.
  intros Hf. revert idx. induction l as [|x l IH]; intros idx; simpl.
  - apply framed_ret.
  - apply framed_bind; [apply Hf | intros; apply IH].
Qed.

Section FetcherFacts.
Context {R : Type} {env : FetchEnv R}.

(** *** The push guard *)

(** If reading a [.length] throws at some index, it throws at every
    smaller one: the arrays before the undefined one are long enough
    there too. *)
Lemma pushGuard_throw_mono result k k' e :
  pushGuard result k = Throw e -> k' <= k -> pushGuard result k' = Throw e.
Proof.
  unfold pushGuard, and_then, lt_length, lengthOf.
  intros H Hle.
  destruct (stars result), (summaries result), (auditors result),
    (timestamps result); simpl in *;
    repeat match goal with
      | H : context [?a <? ?b] |- _ => destruct (Nat.ltb_spec a b)
      | |- context [?a <? ?b] => destruct (Nat.ltb_spec a b)
      end; simpl in *; try congruence; try lia.
Qed.

Lemma guardTotalFrom_intro result i b :
  pushGuard result i = Normal b -> guardTotalFrom result i.
Proof.
  intros Hi k Hle. destruct (pushGuard result k) as [b'|e] eqn:Hk; [eauto|].
  by rewrite (pushGuard_throw_mono _ _ i _ Hk) in Hi.
Qed.

Lemma forEach_callback chainKey result i l idx s :
  guardTotalFrom result (i + idx) ->
  forEach (callback chainKey result i) l idx s =
    (Normal tt,
     mkState (allAudits s ++ recordsFrom chainKey result (i + idx) l)
       (clock s) (trace s)).
Proof.
  revert idx s. induction l as [|hash l IH]; intros idx s Htot; simpl.
  - rewrite app_nil_r. by destruct s.
  - unfold mbind, M_bind at 1.
    unfold callback at 1, recordAt.
    unfold mbind, M_bind, lift.
    destruct (Htot (i + idx)) as [b ->]; [lia|].
    assert (guardTotalFrom result (i + S idx)).
    { intros k Hk. apply Htot. lia. }
    destruct b; simpl.
    + rewrite IH by done; simpl. rewrite <- app_assoc. simpl.
      by replace (i + S idx) with (S (i + idx)) by lia.
    + rewrite IH by done; simpl.
      by replace (i + S idx) with (S (i + idx)) by lia.
Qed.

Lemma forEach_callback_throw chainKey result i hash l s e :
  pushGuard result i = Throw e ->
  forEach (callback chainKey result i) (hash :: l) 0 s = (Throw e, s).
Proof.
  intros H. simpl. unfold mbind, M_bind at 1.
  unfold callback, mbind, M_bind, lift.
  by rewrite Nat.add_0_r, H.
Qed.

Lemma recordsFrom_app chainKey result k l1 l2 :
  recordsFrom chainKey result k (l1 ++ l2) =
    recordsFrom chainKey result k l1 ++
    recordsFrom chainKey result (k + length l1) l2.
Proof.
  revert k. induction l1 as [|x l1 IH]; intros k; simpl.
  - by rewrite Nat.add_0_r.
  - rewrite IH, <- app_assoc. by replace (S k + length l1) with (k + S (length l1)) by lia.
Qed.

Lemma recordsFrom_tagged chainKey result k l :
  Forall (taggedWith chainKey) (recordsFrom chainKey result k l).
Proof.
  revert k. induction l as [|hash l IH]; intros k; simpl; [done|].
  apply Forall_app. split; [|done].
  unfold recordAt. destruct (pushGuard result k) as [[]|]; try done.
  constructor; [|done]. by repeat eexists.
Qed.

(** *** The batch loop *)

Lemma forBatches_step chainKey result hashes i s :
  forBatches chainKey result hashes i s =
    (if decide (i < length hashes) then
       (forEach (callback chainKey result i)
          (slice i (i + batchSize) hashes) 0 ;;
        await BatchPause 10%N) ;;
       forBatches chainKey result hashes (i + batchSize)
     else mret tt) s.
Proof.
  simp forBatches. destruct (decide (i < length hashes)); simpl; [|done].
  unfold mbind, M_bind.
  destruct (forEach _ _ 0 s) as [[[]|e] s']; by simp forBatches.
Qed.

Lemma batchesOf_step n : 0 < n -> batchesOf n = S (batchesOf (n - batchSize)).
Proof.
  unfold batchesOf. change (batchSize - 1) with 49. change batchSize with 50.
  intros Hn. destruct (decide (n <= 50)).
  - replace (n - 50) with 0 by lia.
    rewrite (Nat.div_small (0 + 49)) by lia.
    symmetry. apply (Nat.div_unique _ _ _ (n - 1)); lia.
  - replace (n + 49) with ((n - 50 + 49) + 1 * 50) by lia.
    rewrite Nat.div_add by lia. lia.
Qed.

(** The batch loop either stops at its very first callback, with nothing
    pushed, or runs through all the remaining hashes. *)
Lemma forBatches_spec chainKey result hashes i s :
  forBatches chainKey result hashes i s =
    if decide (i < length hashes) then
      match pushGuard result i with
      | Throw e => (Throw e, s)
      | Normal _ =>
          let n := batchesOf (length hashes - i) in
          (Normal tt,
           mkState
             (allAudits s ++ recordsFrom chainKey result i (drop i hashes))
             (clock s + 10 * N.of_nat n)
             (trace s ++ replicate n (Awaited BatchPause 10)))
      end
    else (Normal tt, s).
Proof.
  remember (length hashes - i) as m eqn:Hm.
  revert i s Hm. induction (lt_wf m) as [m _ IH]. intros i s ->.
  rewrite forBatches_step. destruct (decide (i < length hashes)) as [Hlt|]; [|done].
  assert (Hslice : slice i (i + batchSize) hashes ≠ []).
  { unfold slice, batchSize. intros Hnil%(f_equal length).
    rewrite length_take, length_drop in Hnil. simpl in Hnil. lia. }
  destruct (pushGuard result i) as [b|e] eqn:Hg.
  - assert (Htot := guardTotalFrom_intro _ _ _ Hg).
    unfold mbind at 1, M_bind at 1. unfold mbind at 1, M_bind at 1.
    rewrite forEach_callback by (by rewrite Nat.add_0_r).
    unfold await at 1. simpl.
    rewrite (IH (length hashes - (i + batchSize))); [|unfold batchSize; lia|done].
    simpl. rewrite Nat.add_0_r.
    assert (Hdrop : drop i hashes =
              slice i (i + batchSize) hashes ++ drop (i + batchSize) hashes).
    { unfold slice. replace (i + batchSize - i) with batchSize by lia.
      rewrite <- (take_drop batchSize (drop i hashes)) at 1.
      by rewrite drop_drop. }
    assert (Hlen : length (slice i (i + batchSize) hashes) =
              batchSize `min` (length hashes - i)).
    { unfold slice. rewrite length_take, length_drop. lia. }
    rewrite (batchesOf_step (length hashes - i)) by lia.
    replace (length hashes - i - batchSize) with
      (length hashes - (i + batchSize)) by lia.
    destruct (decide (i + batchSize < length hashes)) as [Hlt2|Hge].
    + destruct (guardTotalFrom_intro _ _ _ Hg (i + batchSize)) as [b2 ->]; [lia|].
      f_equal. f_equal.
      * rewrite Hdrop, recordsFrom_app, Hlen, <- app_assoc.
        by replace (i + batchSize `min` (length hashes - i)) with
          (i + batchSize) by lia.
      * lia.
      * simpl. by rewrite <- app_assoc.
    + replace (length hashes - (i + batchSize)) with 0 by lia.
      rewrite Hdrop.
      by rewrite (drop_ge hashes (i + batchSize)), app_nil_r by lia.
  - unfold mbind at 1, M_bind at 1. unfold mbind at 1, M_bind at 1.
    destruct (slice i (i + batchSize) hashes) as [|hash l] eqn:Hs; [done|].
    by rewrite (forEach_callback_throw _ _ _ _ _ _ _ Hg).
Qed.

Lemma framed_forBatches chainKey result hashes i :
  framed (forBatches chainKey result hashes i).
Proof.
  intros s. rewrite !forBatches_spec.
  destruct (decide (i < length hashes)); simpl; [|by rewrite frame_fresh].
  destruct (pushGuard result i); simpl; [|by rewrite frame_fresh].
  done.
Qed.

(** *** One endpoint attempt *)

Ltac framed_step :=
  first
    [ apply framed_console | apply framed_await | apply framed_await_race
    | apply framed_currentTime | apply framed_lift | apply framed_throw
    | apply framed_ret | apply framed_push | apply framed_forBatches
    | apply framed_bind; [|intros ?]
    | apply framed_try_catch; [|intros ?]
    | case_match ].

Lemma framed_tryBody chainKey contractAddress rpcUrl retryCount :
  framed (tryBody chainKey contractAddress rpcUrl retryCount).
Proof. unfold tryBody. repeat framed_step. Qed.

Lemma framed_catchClause chainKey rpcUrl error :
  framed (catchClause chainKey rpcUrl error : M R unit).
Proof. unfold catchClause. repeat framed_step. Qed.

Lemma framed_forRpcUrls chainKey contractAddress retryCount urls :
  framed (forRpcUrls chainKey contractAddress retryCount urls).
Proof.
  induction urls as [|rpcUrl rest IH]; simpl; [apply framed_ret|].
  apply framed_bind; [|intros []; [apply framed_ret | apply IH]].
  apply framed_try_catch; [|intros e].
  - apply framed_bind; [apply framed_tryBody | intros; apply framed_ret].
  - apply framed_bind; [apply framed_catchClause | intros; apply framed_ret].
Qed.

Lemma race_timeout_le {A} (p : Call A) timeout msg :
  ((race_timeout p timeout msg).1 <= timeout)%N.
Proof.
  unfold race_timeout. destruct p as [latency r|]; simpl; [|lia].
  destruct (N.ltb_spec latency timeout); simpl; lia.
Qed.

(** An attempt announces itself, then only counts, fetches and processes;
    when it throws it has pushed nothing. *)
Lemma tryBody_run chainKey contractAddress rpcUrl retryCount s :
  let r := tryBody chainKey contractAddress rpcUrl retryCount s in
  exists tr,
    trace r.2 = trace s ++ LogAttemptRpc rpcUrl (retryCount + 1) maxRetries :: tr
    /\ Forall inTry tr
    /\ (forall e, r.1 = Throw e -> allAudits r.2 = allAudits s)
    /\ exists recs,
         allAudits r.2 = allAudits s ++ recs
         /\ Forall (taggedWith chainKey) recs.
Proof.
  unfold tryBody, await_race, mbind, M_bind, console, currentTime, lift,
    await, throw; simpl.
  destruct (newContract rpcUrl contractAddress (clock s)) as [contract|e0]; simpl.
  2:{ exists []. repeat split; try done. exists []. by rewrite app_nil_r. }
  pose proof (race_timeout_le (getTotalContracts contract (clock s)) 10000
                "getTotalContracts timeout") as Hle1.
  destruct (race_timeout (getTotalContracts contract (clock s)) _ _)
    as [d1 [n|e1]]; simpl in *.
  2:{ exists [Awaited CountQuery d1]. rewrite <- app_assoc.
      split; [done|]. split; [by repeat constructor|]. split; [done|].
      exists []. by rewrite app_nil_r. }
  destruct (Number n =? 0)%Z; simpl.
  { eexists. rewrite <- !app_assoc. simpl. split; [done|].
    split; [by repeat constructor|]. split; [done|].
    exists []. by rewrite app_nil_r. }
  match goal with
  | |- context [race_timeout ?p ?t ?m] =>
      pose proof (race_timeout_le p t m) as Hle2;
      destruct (race_timeout p t m) as [d2 [result|e2]]; simpl in *
  end.
  2:{ eexists. rewrite <- !app_assoc. simpl. split; [done|].
      split; [by repeat constructor|]. split; [done|].
      exists []. by rewrite app_nil_r. }
  destruct result as [res|]; simpl.
  2:{ eexists. rewrite <- !app_assoc. simpl. split; [done|].
      split; [by repeat constructor|]. split; [done|].
      exists []. by rewrite app_nil_r. }
  destruct (contractHashes res) as [hashes|]; simpl.
  2:{ eexists. rewrite <- !app_assoc. simpl. split; [done|].
      split; [by repeat constructor|]. split; [done|].
      exists []. by rewrite app_nil_r. }
  rewrite forBatches_spec.
  destruct (decide (0 < length hashes)); simpl.
  - destruct (pushGuard res 0); simpl.
    + eexists. rewrite <- !app_assoc. simpl. split; [done|].
      split.
      { repeat (constructor; [done|]).
        apply Forall_app. split; [|by repeat constructor].
        by apply Forall_replicate. }
      split; [done|]. eexists. split; [done|]. apply recordsFrom_tagged.
    + eexists. rewrite <- !app_assoc. simpl. split; [done|].
      split; [by repeat constructor|]. split; [done|].
      exists []. by rewrite app_nil_r.
  - eexists. rewrite <- !app_assoc. simpl. split; [done|].
    split; [by repeat constructor|]. split; [done|].
    exists []. by rewrite app_nil_r.
Qed.

(** *** One round over the endpoints *)

Lemma inTry_inRound retryCount e : inTry e -> inRound retryCount e.
Proof. by destruct e. Qed.

Lemma attempts_app tr1 tr2 : attempts (tr1 ++ tr2) = attempts tr1 ++ attempts tr2.
Proof. apply omap_app. Qed.

Lemma awaits_app what tr1 tr2 :
  awaits what (tr1 ++ tr2) = awaits what tr1 ++ awaits what tr2.
Proof. apply omap_app. Qed.

Lemma attempts_cons_attempt rpcUrl attempt m tr :
  attempts (LogAttemptRpc rpcUrl attempt m :: tr) = (rpcUrl, attempt) :: attempts tr.
Proof. done. Qed.

Lemma schedule_app tr1 tr2 : schedule (tr1 ++ tr2) = schedule tr1 ++ schedule tr2.
Proof. apply omap_app. Qed.

Lemma schedule_inRound retryCount tr :
  Forall (inRound retryCount) tr -> schedule tr = inl <$> attempts tr.
Proof.
  induction 1 as [|e tr He _ IH]; [done|].
  unfold schedule, attempts in *.
  destruct e as [| | |[] d| | | | | | |]; try done; simpl in *;
    first [exact IH | f_equal; exact IH].
Qed.

Lemma attempts_inTry tr : Forall inTry tr -> attempts tr = [].
Proof.
  induction 1 as [|e tr He _ IH]; [done|].
  destruct e; try done; by cbn.
Qed.

(** A round never throws; it tries a prefix of the endpoints, in order,
    all of them when it fails, and a failed round has pushed nothing. *)
Lemma forRpcUrls_run chainKey contractAddress retryCount urls s :
  exists success s' tr tried,
    forRpcUrls chainKey contractAddress retryCount urls s = (Normal success, s')
    /\ trace s' = trace s ++ tr
    /\ Forall (inRound retryCount) tr
    /\ attempts tr = map (fun u => (u, retryCount + 1)) tried
    /\ tried `prefix_of` urls
    /\ (success = false -> tried = urls /\ allAudits s' = allAudits s)
    /\ exists recs,
         allAudits s' = allAudits s ++ recs
         /\ Forall (taggedWith chainKey) recs.
Proof.
  revert s. induction urls as [|rpcUrl rest IH]; intros s; simpl.
  - exists false, s, [], []. rewrite !app_nil_r. repeat split; try done.
    exists []. by rewrite app_nil_r.
  - unfold mbind at 1, M_bind at 1, try_catch.
    unfold mbind at 1, M_bind at 1.
    destruct (tryBody_run chainKey contractAddress rpcUrl retryCount s)
      as (tr0 & Htr0 & Hin0 & Hthrow & recs0 & Hrecs0 & Htag0).
    destruct (tryBody chainKey contractAddress rpcUrl retryCount s)
      as [[[]|e] s0]; simpl in *.
    + exists true, s0, (LogAttemptRpc rpcUrl (retryCount + 1) maxRetries :: tr0),
        [rpcUrl].
      split; [done|]. split; [done|]. split.
      { constructor; [done|]. eapply Forall_impl; [done|]. apply inTry_inRound. }
      split; [by rewrite attempts_cons_attempt, (attempts_inTry tr0)|].
      split; [by apply prefix_cons, prefix_nil|]. split; [done|].
      by exists recs0.
    + specialize (Hthrow e eq_refl).
      unfold mbind at 1, M_bind at 1.
      set (ev := if isRpcError e then WarnRpcFailed rpcUrl (message e)
                 else ErrorOn chainKey e).
      assert (Hcatch : catchClause chainKey rpcUrl e s0 =
                (Normal tt, mkState (allAudits s0) (clock s0) (trace s0 ++ [ev]))).
      { unfold catchClause, ev. by destruct (isRpcError e). }
      rewrite Hcatch; simpl.
      destruct (IH (mkState (allAudits s0) (clock s0) (trace s0 ++ [ev])))
        as (success & s' & tr & tried & Hrun & Htr & Hin & Hatt & Hpre & Hfail
            & recs & Hrecs & Htag).
      exists success, s',
        (LogAttemptRpc rpcUrl (retryCount + 1) maxRetries :: tr0 ++ ev :: tr),
        (rpcUrl :: tried).
      split; [done|]. simpl in Htr. split.
      { rewrite Htr, Htr0, <- !app_assoc. done. }
      split.
      { constructor; [done|]. apply Forall_app. split.
        - eapply Forall_impl; [done|]. apply inTry_inRound.
        - constructor; [by unfold ev; destruct (isRpcError e)|done]. }
      split.
      { rewrite attempts_cons_attempt, attempts_app, (attempts_inTry tr0) by done.
        assert (attempts (ev :: tr) = attempts tr) as ->
          by (by unfold ev; destruct (isRpcError e)).
        by rewrite Hatt. }
      split; [by apply prefix_cons|]. split.
      { intros Hs. destruct (Hfail Hs) as [-> Ha]. split; [done|].
        simpl in Ha. congruence. }
      exists recs. split; [|done]. simpl in Hrecs. congruence.
Qed.

(** *** The retry loop *)

Lemma whileLoop_step chainKey chainData contractAddress retryCount s :
  whileLoop chainKey chainData contractAddress retryCount s =
    (if decide (retryCount < maxRetries) then
       success ← forRpcUrls chainKey contractAddress retryCount
                   (rpcUrls chainData);
       if success : bool then mret true
       else
         (if decide (S retryCount < maxRetries) then
            console (LogRetrying chainKey
                       (baseDelay * 2 ^ N.of_nat (S retryCount))) ;;
            await Backoff (baseDelay * 2 ^ N.of_nat (S retryCount))
          else mret tt) ;;
         whileLoop chainKey chainData contractAddress (S retryCount)
     else mret false) s.
Proof.
  simp whileLoop. destruct (decide (retryCount < maxRetries)); simpl; [|done].
  unfold mbind, M_bind.
  destruct (forRpcUrls _ _ _ _ s) as [[[]|e] s1]; simp whileLoop; try done.
  destruct (decide (S retryCount < maxRetries)); simp whileLoop; simpl; [done|].
  by rewrite whileLoop_unfold_eq.
Qed.

Lemma awaits_inRound retryCount tr :
  Forall (inRound retryCount) tr ->
  Forall (fun d => (d <= 10000)%N) (awaits CountQuery tr)
  /\ Forall (fun d => (d <= 20000)%N) (awaits BulkFetch tr)
  /\ awaits Backoff tr = [].
Proof.
  induction 1 as [|e tr He _ (IH1 & IH2 & IH3)]; [done|].
  destruct e as [| | |[] d| | | | | | |]; try done; cbn in *;
    repeat split; try done; by constructor.
Qed.

(** The retry loop never throws.  It runs at most [maxRetries -
    retryCount] rounds, each over a prefix of the endpoints; it waits
    [baseDelay * 2^k] after the failed round number [k] unless that was
    the last one allowed; and when it gives up it has run every round in
    full and pushed nothing. *)
Lemma whileLoop_run chainKey chainData contractAddress retryCount s :
  exists success s' tr rounds,
    whileLoop chainKey chainData contractAddress retryCount s
      = (Normal success, s')
    /\ trace s' = trace s ++ tr
    /\ length rounds <= maxRetries - retryCount
    /\ (retryCount < maxRetries -> 1 <= length rounds)
    /\ attempts tr = roundAttempts retryCount rounds
    /\ schedule tr = roundSchedule retryCount rounds
    /\ Forall (fun tried => tried `prefix_of` rpcUrls chainData) rounds
    /\ awaits Backoff tr =
         map (fun k => (baseDelay * 2 ^ N.of_nat k)%N)
           (seq (S retryCount) (length rounds - 1))
    /\ Forall (fun d => (d <= 10000)%N) (awaits CountQuery tr)
    /\ Forall (fun d => (d <= 20000)%N) (awaits BulkFetch tr)
    /\ (success = false ->
          length rounds = maxRetries - retryCount
          /\ Forall (fun tried => tried = rpcUrls chainData) rounds
          /\ allAudits s' = allAudits s)
    /\ exists recs,
         allAudits s' = allAudits s ++ recs
         /\ Forall (taggedWith chainKey) recs.
Proof.
  remember (maxRetries - retryCount) as n eqn:Hn.
  revert retryCount s Hn. induction n as [|n IH]; intros retryCount s Hn.
  - exists false, s, [], []. rewrite whileLoop_step.
    destruct (decide (retryCount < maxRetries)); [lia|].
    rewrite app_nil_r. repeat split; try first [done | lia].
    exists []. by rewrite app_nil_r.
  - rewrite whileLoop_step.
    destruct (decide (retryCount < maxRetries)) as [Hlt|]; [|lia].
    unfold mbind at 1, M_bind at 1.
    destruct (forRpcUrls_run chainKey contractAddress retryCount
                (rpcUrls chainData) s)
      as (success & s1 & tr1 & tried & -> & Htr1 & Hin1 & Hatt1 & Hpre1 & Hfail1
          & recs1 & Hrecs1 & Htag1).
    destruct (awaits_inRound _ _ Hin1) as (Hc1 & Hb1 & Hk1).
    destruct success.
    + exists true, s1, tr1, [tried]. simpl.
      rewrite !app_nil_r. repeat split; try done; try lia.
      { by rewrite (schedule_inRound _ _ Hin1), Hatt1. }
      { by constructor. }
      by exists recs1.
    + destruct (Hfail1 eq_refl) as [-> Ha1].
      unfold mbind at 1, M_bind at 1.
      destruct (decide (S retryCount < maxRetries)) as [Hlt2|Hge2].
      * unfold mbind at 1, M_bind at 1, console at 1, await at 1. simpl.
        match goal with
        | |- context [whileLoop _ _ _ _ ?s2] =>
            destruct (IH (S retryCount) s2) as
              (success & s' & tr & rounds & -> & Htr & Hlen & Hlen1 & Hatt & Hsch
               & Hpre & Hback & Hc & Hb & Hfail & recs & Hrecs & Htag); [lia|]
        end.
        simpl in Htr.
        exists success, s',
          (tr1 ++ LogRetrying chainKey (baseDelay * 2 ^ N.of_nat (S retryCount))
             :: Awaited Backoff (baseDelay * 2 ^ N.of_nat (S retryCount)) :: tr),
          (rpcUrls chainData :: rounds).
        split; [done|]. split.
        { rewrite Htr, Htr1, <- !app_assoc. done. }
        simpl. split; [lia|]. split; [lia|]. split.
        { rewrite attempts_app, Hatt1. f_equal. by cbn. }
        split.
        { rewrite schedule_app, (schedule_inRound _ _ Hin1), Hatt1. f_equal.
          specialize (Hlen1 Hlt2).
          destruct rounds as [|r0 rounds]; [simpl in Hlen1; lia|].
          cbn. fold (schedule tr). by rewrite Hsch. }
        split; [by constructor|]. split.
        { rewrite awaits_app, Hk1. cbn. rewrite Nat.sub_0_r.
          specialize (Hlen1 Hlt2).
          destruct rounds as [|r0 rounds]; [simpl in Hlen1; lia|].
          simpl in *. rewrite Nat.sub_0_r in Hback.
          fold (awaits Backoff tr). by rewrite Hback. }
        split.
        { rewrite awaits_app. apply Forall_app. split; [done|]. by cbn. }
        split.
        { rewrite awaits_app. apply Forall_app. split; [done|]. by cbn. }
        split.
        { intros Hs. destruct (Hfail Hs) as (Hl & Hall & Ha).
          split; [lia|]. split; [by constructor|]. simpl in Ha. congruence. }
        exists recs. split; [|done]. simpl in Hrecs. congruence.
      * unfold mret at 1, M_ret at 1.
        destruct (IH (S retryCount) s1) as
          (success & s' & tr & rounds & -> & Htr & Hlen & Hlen1 & Hatt & Hsch
           & Hpre & Hback & Hc & Hb & Hfail & recs & Hrecs & Htag); [lia|].
        assert (rounds = []) as -> by (destruct rounds; [done|simpl in Hlen; lia]).
        exists success, s', (tr1 ++ tr), [rpcUrls chainData].
        split; [done|]. split.
        { rewrite Htr, Htr1, <- !app_assoc. done. }
        simpl. split; [lia|]. split; [lia|]. split.
        { by rewrite attempts_app, Hatt1, Hatt. }
        split.
        { by rewrite schedule_app, (schedule_inRound _ _ Hin1), Hatt1, Hsch. }
        split; [by constructor|]. split.
        { by rewrite awaits_app, Hk1, Hback. }
        split.
        { rewrite awaits_app. by apply Forall_app. }
        split.
        { rewrite awaits_app. by apply Forall_app. }
        split.
        { intros Hs. destruct (Hfail Hs) as (Hl & Hall & Ha).
          split; [lia|]. split; [by constructor|]. congruence. }
        exists recs. split; [|done]. congruence.
Qed.

Lemma framed_ext {A} (c c' : M R A) :
  (forall s, c s = c' s) -> framed c' -> framed c.
Proof. intros Heq Hc' s. by rewrite !Heq. Qed.

Lemma framed_whileLoop chainKey chainData contractAddress retryCount :
  framed (whileLoop chainKey chainData contractAddress retryCount).
Proof.
  remember (maxRetries - retryCount) as n eqn:Hn.
  revert retryCount Hn. induction n as [|n IH]; intros retryCount Hn;
    (eapply framed_ext; [intros s; apply whileLoop_step|]);
    destruct (decide (retryCount < maxRetries)); try lia.
  - apply framed_ret.
  - apply framed_bind; [apply framed_forRpcUrls|].
    intros []; [apply framed_ret|].
    apply framed_bind; [|intros _; apply IH; lia].
    destruct (decide (S retryCount < maxRetries)); repeat framed_step.
Qed.

(** *** The chain loop *)

Lemma framed_forChain entry : framed (forChain entry).
Proof.
  destruct entry as [chainKey chainData]. unfold forChain.
  apply framed_bind; [apply framed_console|intros _].
  cbv zeta.
  destruct (falsy (getProperty CONTRACT_ADDRESSES chainKey));
    [apply framed_console|].
  apply framed_bind; [apply framed_whileLoop|].
  intros []; [apply framed_ret | apply framed_console].
Qed.

Lemma forChain_normal entry s : (forChain entry s).1 = Normal tt.
Proof.
  destruct entry as [chainKey chainData]. unfold forChain.
  unfold mbind at 1, M_bind at 1, console at 1.
  cbv zeta.
  destruct (falsy (getProperty CONTRACT_ADDRESSES chainKey)); [done|].
  unfold mbind at 1, M_bind at 1.
  match goal with
  | |- context [whileLoop ?k ?d ?a ?rc ?s1] =>
      destruct (whileLoop_run k d a rc s1) as ([] & s' & ? & ? & -> & _)
  end; done.
Qed.

(** The chain loop never throws, and [allAudits] grows by the
    contributions of the chains, in iteration order. *)
Lemma forChains_run entries s :
  (forChains entries s).1 = Normal tt
  /\ allAudits (forChains entries s).2 =
       allAudits s ++ mjoin (contributions entries (clock s)).*2.
Proof.
  revert s. induction entries as [|entry rest IH]; intros s; simpl.
  - by rewrite app_nil_r.
  - unfold mbind, M_bind.
    pose proof (forChain_normal entry s) as Hn.
    rewrite (framed_forChain entry s) in Hn |- *. simpl in Hn. rewrite Hn.
    destruct (IH (frame s (forChain entry (fresh (clock s))).2)) as [-> ->].
    split; [done|]. simpl. by rewrite app_assoc.
Qed.

Lemma forChain_tagged chainKey chainData s :
  exists recs,
    allAudits (forChain (chainKey, chainData) s).2 = allAudits s ++ recs
    /\ Forall (taggedWith chainKey) recs.
Proof.
  unfold forChain. unfold mbind at 1, M_bind at 1, console at 1.
  cbv zeta.
  destruct (falsy (getProperty CONTRACT_ADDRESSES chainKey));
    [exists []; by rewrite app_nil_r|].
  unfold mbind at 1, M_bind at 1.
  match goal with
  | |- context [whileLoop ?k ?d ?a ?rc ?s1] =>
      destruct (whileLoop_run k d a rc s1)
        as ([] & s' & tr & rounds & -> & H)
  end; do 10 destruct H as [_ H]; destruct H as (recs & Hrecs & Htag);
    by exists recs.
Qed.

Lemma contributions_keys entries t : (contributions entries t).*1 = entries.*1.
Proof.
  revert t. induction entries as [|entry rest IH]; intros t; simpl; [done|].
  by rewrite IH.
Qed.

Lemma contributions_tagged entries t :
  Forall (fun kr => Forall (taggedWith kr.1) kr.2) (contributions entries t).
Proof.
  revert t. induction entries as [|[chainKey chainData] rest IH]; intros t;
    [done|].
  cbn [contributions]. constructor; [|apply IH]. cbn [fst snd].
  destruct (forChain_tagged chainKey chainData (fresh t)) as (recs & -> & Htag).
  done.
Qed.

Lemma framed_forChains entries : framed (forChains entries).
Proof.
  induction entries as [|entry rest IH]; simpl; [apply framed_ret|].
  apply framed_bind; [apply framed_forChain | by intros _].
Qed.

Lemma forChains_app entries1 entries2 s :
  forChains (entries1 ++ entries2) s =
    (forChains entries1 ;; forChains entries2) s.
Proof.
  revert s. induction entries1 as [|entry rest IH]; intros s; simpl.
  - done.
  - unfold mbind, M_bind. destruct (forChain entry s) as [[[]|e] s1]; [|done].
    rewrite IH. done.
Qed.

(** *** Rounds in which every attempt fails *)

Lemma forRpcUrls_fail chainKey contractAddress retryCount urls s :
  (forall url s0, url ∈ urls ->
     exists e, (tryBody chainKey contractAddress url retryCount s0).1 = Throw e) ->
  (forRpcUrls chainKey contractAddress retryCount urls s).1 = Normal false.
Proof.
  revert s. induction urls as [|rpcUrl rest IH]; intros s Hfail; simpl; [done|].
  unfold mbind at 1, M_bind at 1, try_catch. unfold mbind at 1, M_bind at 1.
  destruct (Hfail rpcUrl s) as [e He]; [by left|].
  destruct (tryBody chainKey contractAddress rpcUrl retryCount s) as [c s0].
  simpl in He. subst c. unfold mbind at 1, M_bind at 1.
  assert (Hc : (catchClause chainKey rpcUrl e s0).1 = Normal tt)
    by (unfold catchClause; by destruct (isRpcError e)).
  destruct (catchClause chainKey rpcUrl e s0) as [c1 s1]. simpl in Hc. subst c1.
  simpl. apply IH. intros url s2 Hin. apply Hfail. by right.
Qed.

Lemma whileLoop_fail chainKey chainData contractAddress retryCount s :
  (forall rc s0,
     (forRpcUrls chainKey contractAddress rc (rpcUrls chainData) s0).1
       = Normal false) ->
  (whileLoop chainKey chainData contractAddress retryCount s).1 = Normal false.
Proof.
  intros Hfail. remember (maxRetries - retryCount) as n eqn:Hn.
  revert retryCount s Hn. induction n as [|n IH]; intros retryCount s Hn;
    rewrite whileLoop_step;
    destruct (decide (retryCount < maxRetries)); try lia; [done|].
  unfold mbind at 1, M_bind at 1.
  specialize (Hfail retryCount s).
  destruct (forRpcUrls _ _ _ _ s) as [c s1]. simpl in Hfail. subst c.
  unfold mbind at 1, M_bind at 1.
  destruct (decide (S retryCount < maxRetries)).
  - unfold mbind at 1, M_bind at 1, console at 1, await at 1. apply IH. lia.
  - unfold mret at 1, M_ret at 1. apply IH. lia.
Qed.

Lemma forRpcUrls_app chainKey contractAddress retryCount urls1 urls2 s :
  forRpcUrls chainKey contractAddress retryCount (urls1 ++ urls2) s =
    (success ← forRpcUrls chainKey contractAddress retryCount urls1;
     if success : bool then mret true
     else forRpcUrls chainKey contractAddress retryCount urls2) s.
Proof.
  revert s. induction urls1 as [|rpcUrl rest IH]; intros s; simpl; [done|].
  unfold mbind, M_bind.
  match goal with
  | |- context [try_catch ?b ?h s] => destruct (try_catch b h s) as [[[]|e] s1]
  end; done.
Qed.

(** *** What one attempt does, from what the endpoint answers *)

Lemma tryBody_count_zero chainKey contractAddress rpcUrl retryCount s
    contract lat :
  world rpcUrl contractAddress (clock s) = Normal contract ->
  getTotalContracts contract (clock s) = Settles lat (Normal 0%Z) ->
  (lat < 10000)%N ->
  tryBody chainKey contractAddress rpcUrl retryCount s =
    (Normal tt,
     mkState (allAudits s) (clock s + lat)
       (trace s ++ [LogAttemptRpc rpcUrl (retryCount + 1) maxRetries;
                    Awaited CountQuery lat; LogTotal chainKey 0;
                    LogNoContracts chainKey])).
Proof.
  intros Hw Hc Hlat. apply N.ltb_lt in Hlat.
  unfold tryBody, await_race, mbind, M_bind, console, currentTime, lift,
    await, throw; simpl.
  rewrite Hw; simpl. rewrite Hc; simpl. rewrite Hlat; simpl.
  by rewrite <- !app_assoc.
Qed.

Lemma tryBody_fetched chainKey contractAddress rpcUrl retryCount s
    contract lat1 n lat2 result :
  world rpcUrl contractAddress (clock s) = Normal contract ->
  getTotalContracts contract (clock s) = Settles lat1 (Normal n) ->
  (lat1 < 10000)%N ->
  Number n ≠ 0%Z ->
  getAllAudits contract (clock s + lat1) 0 (Number n)
    = Settles lat2 (Normal result) ->
  (lat2 < 20000)%N ->
  tryBody chainKey contractAddress rpcUrl retryCount s =
    match result with
    | Some res =>
        match contractHashes res with
        | Some hashes =>
            forBatches chainKey res hashes 0 ;;
            console (LogProcessed (length hashes) chainKey)
        | None => throw (Error "Invalid response format")
        end
    | None => throw (Error "Invalid response format")
    end
      (mkState (allAudits s) (clock s + lat1 + lat2)
         (trace s ++ [LogAttemptRpc rpcUrl (retryCount + 1) maxRetries;
                      Awaited CountQuery lat1;
                      LogTotal chainKey (Number n);
                      Awaited BulkFetch lat2])).
Proof.
  intros Hw Hc Hlat1%N.ltb_lt Hn%Z.eqb_neq Hf Hlat2%N.ltb_lt.
  unfold tryBody, await_race, mbind, M_bind, console, currentTime, lift,
    await; simpl.
  rewrite Hw; simpl. rewrite Hc; simpl. rewrite Hlat1; simpl.
  rewrite Hn; simpl. rewrite Hf; simpl. rewrite Hlat2; simpl.
  rewrite <- !app_assoc; simpl.
  destruct result as [res|]; [|done].
  destruct (contractHashes res); done.
Qed.

(** With all four arrays present, the guard is the bounds test followed
    by the identity test. *)
Lemma pushGuard_present hashes st su au ts k :
  pushGuard (mkResult hashes (Some st) (Some su) (Some au) (Some ts)) k =
    Normal ((k <? length st) && (k <? length su) && (k <? length au)
            && (k <? length ts) && keep (au !!! k)).
Proof.
  unfold pushGuard, and_then, lt_length, lengthOf, at_index; simpl.
  destruct (k <? length st); simpl; [|done].
  destruct (k <? length su); simpl; [|done].
  destruct (k <? length au); simpl; [|done].
  by destruct (k <? length ts).
Qed.

Lemma recordsFrom_all chainKey hashes st su au ts l k :
  (forall a, keep a = true) ->
  k + length l <= length st -> k + length l <= length su ->
  k + length l <= length au -> k + length l <= length ts ->
  recordsFrom chainKey (mkResult hashes (Some st) (Some su) (Some au) (Some ts))
    k l =
  imap (fun j hash =>
          mkAudit hash (Number (st !!! (k + j))) (orEmpty (su !!! (k + j)))
            (au !!! (k + j)) (Number (ts !!! (k + j))) chainKey) l.
Proof.
  intros Hkeep. revert k.
  induction l as [|hash l IH]; intros k H1 H2 H3 H4; simpl in *; [done|].
  unfold recordAt. rewrite pushGuard_present, Hkeep.
  repeat match goal with
    | |- context [?a <? ?b] => destruct (Nat.ltb_spec a b); [|lia]
    end.
  simpl. unfold at_index; simpl. rewrite Nat.add_0_r. f_equal.
  rewrite IH by lia. apply imap_ext. intros j x _. simpl.
  replace (S (k + j)) with (k + S j) by lia. done.
Qed.
End FetcherFacts.

(** ** Waits follow one another *)

Lemma sumN_app l1 l2 : sumN (l1 ++ l2) = (sumN l1 + sumN l2)%N.
Proof. induction l1 as [|x l1 IH]; simpl; [done|]. rewrite IH. lia. Qed.

Lemma waits_app tr1 tr2 : waits (tr1 ++ tr2) = waits tr1 ++ waits tr2.
Proof. apply omap_app. Qed.

Lemma timed_silent {R A} (c : M R A) :
  (forall s, trace (c s).2 = trace s /\ clock (c s).2 = clock s) -> timed c.
Proof.
  intros Hc s. exists []. destruct (Hc s) as [-> ->].
  rewrite app_nil_r. simpl. split; [done|lia].
Qed.

Lemma timed_ret {R A} (a : A) : timed (mret a : M R A).
Proof. by apply timed_silent. Qed.

Lemma timed_throw {R A} e : timed (throw e : M R A).
Proof. by apply timed_silent. Qed.

Lemma timed_lift {R A} (c : Completion A) : timed (lift c : M R A).
Proof. by apply timed_silent. Qed.

Lemma timed_currentTime {R} : timed (currentTime : M R N).
Proof. by apply timed_silent. Qed.

Lemma timed_console {R} e : waits [e] = [] -> timed (console e : M R unit).
Proof.
  intros He s. exists [e]. split; [done|]. rewrite He. simpl. lia.
Qed.

Lemma timed_await {R} what d : timed (await what d : M R unit).
Proof. intros s. exists [Awaited what d]. split; [done|]. simpl. lia. Qed.

Lemma timed_bind {R A B} (c : M R A) (k : A -> M R B) :
  timed c -> (forall a, timed (k a)) -> timed (c ≫= k).
Proof.
  intros Hc Hk s. unfold mbind, M_bind.
  destruct (Hc s) as (tr1 & Ht1 & Hc1).
  destruct (c s) as [[a|e] s1]; simpl in *; [|by exists tr1].
  destruct (Hk a s1) as (tr2 & Ht2 & Hc2).
  exists (tr1 ++ tr2). rewrite Ht2, Ht1, Hc2, Hc1, waits_app, sumN_app.
  rewrite <- app_assoc. split; [done|lia].
Qed.

Lemma timed_try_catch {R A} (c : M R A) (h : JsError -> M R A) :
  timed c -> (forall e, timed (h e)) -> timed (try_catch c h).
Proof.
  intros Hc Hh s. unfold try_catch.
  destruct (Hc s) as (tr1 & Ht1 & Hc1).
  destruct (c s) as [[a|e] s1]; simpl in *; [by exists tr1|].
  destruct (Hh e s1) as (tr2 & Ht2 & Hc2).
  exists (tr1 ++ tr2). rewrite Ht2, Ht1, Hc2, Hc1, waits_app, sumN_app.
  rewrite <- app_assoc. split; [done|lia].
Qed.

Lemma timed_await_race {R A} what (p : Call A) timeout msg :
  timed (await_race what p timeout msg : M R A).
Proof.
  unfold await_race. destruct (race_timeout p timeout msg).
  apply timed_bind; [apply timed_await | intros; apply timed_lift].
Qed.

Lemma timed_ext {R A} (c c' : M R A) :
  (forall s, c s = c' s) -> timed c' -> timed c.
Proof. intros Heq Hc' s. rewrite Heq. apply Hc'. Qed.

Section Timing.
Context {R : Type} {env : FetchEnv R}.

Lemma timed_forBatches chainKey result hashes i :
  timed (forBatches chainKey result hashes i).
Proof.
  intros s. rewrite forBatches_spec.
  destruct (decide (i < length hashes));
    [|exists []; rewrite app_nil_r; simpl; split; [done|lia]].
  destruct (pushGuard result i);
    [|exists []; rewrite app_nil_r; simpl; split; [done|lia]].
  simpl. eexists. split; [done|]. f_equal.
  induction (batchesOf (length hashes - i)) as [|n IH]; [done|].
  cbn [replicate]. change (waits (?e :: ?tr)) with (10%N :: waits tr) at 1.
  cbn [sumN foldr]. fold (sumN (waits (replicate n (Awaited BatchPause 10)))).
  rewrite <- IH. lia.
Qed.

Ltac timed_step :=
  first
    [ by apply timed_console | apply timed_await | apply timed_await_race
    | apply timed_currentTime | apply timed_lift | apply timed_throw
    | apply timed_ret | apply timed_forBatches
    | apply timed_bind; [|intros ?]
    | apply timed_try_catch; [|intros ?]
    | case_match ].

Lemma timed_forRpcUrls chainKey contractAddress retryCount urls :
  timed (forRpcUrls chainKey contractAddress retryCount urls).
Proof.
  induction urls as [|rpcUrl rest IH]; simpl; [apply timed_ret|].
  apply timed_bind; [|intros []; [apply timed_ret | apply IH]].
  unfold tryBody, catchClause. repeat timed_step.
Qed.

(** The time the retry loop takes is the sum of its waits. *)
Lemma timed_whileLoop chainKey chainData contractAddress retryCount :
  timed (whileLoop chainKey chainData contractAddress retryCount).
Proof.
  remember (maxRetries - retryCount) as n eqn:Hn.
  revert retryCount Hn. induction n as [|n IH]; intros retryCount Hn;
    (eapply timed_ext; [intros s; apply whileLoop_step|]);
    destruct (decide (retryCount < maxRetries)); try lia.
  - apply timed_ret.
  - apply timed_bind; [apply timed_forRpcUrls|].
    intros []; [apply timed_ret|].
    apply timed_bind; [|intros _; apply IH; lia].
    destruct (decide (S retryCount < maxRetries)); repeat timed_step.
Qed.
End Timing.

(** ** Sorting *)

Section Sorting.
Context {A : Type} (cmp : A -> A -> Z).

Lemma sort_insert_perm x l : sort_insert cmp x l ≡ₚ x :: l.
Proof.
  induction l as [|y l IH]; simpl; [done|].
  destruct (0 <? cmp x y)%Z; [|done].
  rewrite IH. apply Permutation_swap.
Qed.

Lemma sort_perm l : sort cmp l ≡ₚ l.
Proof.
  induction l as [|x l IH]; simpl; [done|].
  by rewrite sort_insert_perm, IH.
Qed.

(** Filtering an already ordered list and then inserting is inserting and
    then filtering, for a comparator that orders by a key. *)
Context (key : A -> Z) (Hcmp : forall a b, cmp a b = (key b - key a)%Z).

Local Abbreviation desc := (descBy key).

Lemma sort_insert_head x l :
  Forall (desc x) l -> sort_insert cmp x l = x :: l.
Proof.
  destruct 1 as [|y l Hy _]; simpl; [done|].
  rewrite Hcmp. unfold descBy in Hy.
  by destruct (Z.ltb_spec 0 (key y - key x)); [lia|].
Qed.

Lemma sort_insert_sorted x l :
  StronglySorted desc l -> StronglySorted desc (sort_insert cmp x l).
Proof.
  induction 1 as [|y l Hl IH Hy]; simpl; [by repeat constructor|].
  rewrite Hcmp. destruct (Z.ltb_spec 0 (key y - key x)).
  - constructor; [done|]. rewrite sort_insert_perm.
    constructor; [unfold descBy; lia | done].
  - constructor; [by constructor|].
    constructor; [unfold descBy; lia|].
    eapply Forall_impl; [done|]. unfold descBy. intros; simpl in *; lia.
Qed.

Lemma sort_sorted l : StronglySorted desc (sort cmp l).
Proof.
  induction l as [|x l IH]; simpl; [constructor|].
  by apply sort_insert_sorted.
Qed.

Lemma filter_sort_insert (P : A -> Prop) `{!forall a, Decision (P a)} x l :
  StronglySorted desc l ->
  filter P (sort_insert cmp x l) =
    if decide (P x) then sort_insert cmp x (filter P l) else filter P l.
Proof.
  induction 1 as [|y l Hl IH Hy]; simpl.
  - rewrite filter_cons, filter_nil. by destruct (decide (P x)).
  - rewrite Hcmp. destruct (Z.ltb_spec 0 (key y - key x)) as [Hlt|Hge].
    + rewrite !filter_cons, IH.
      destruct (decide (P x)), (decide (P y)); simpl; try done.
      rewrite Hcmp. by destruct (Z.ltb_spec 0 (key y - key x)); [|lia].
    + rewrite !filter_cons.
      destruct (decide (P x)); [|done].
      destruct (decide (P y)); simpl.
      * rewrite Hcmp. by destruct (Z.ltb_spec 0 (key y - key x)); [lia|].
      * rewrite sort_insert_head; [done|].
        apply Forall_forall. intros z Hz%list_elem_of_filter.
        destruct Hz as [_ Hz]. rewrite Forall_forall in Hy.
        specialize (Hy z Hz).
        unfold descBy in *. lia.
Qed.

(** A stable sort commutes with filtering. *)
Lemma filter_sort (P : A -> Prop) `{!forall a, Decision (P a)} l :
  filter P (sort cmp l) = sort cmp (filter P l).
Proof.
  induction l as [|x l IH]; simpl; [done|].
  rewrite filter_sort_insert by apply sort_sorted.
  rewrite filter_cons. destruct (decide (P x)); simpl; by rewrite IH.
Qed.
End Sorting.

Lemma sort_insert_map {A B} (f : A -> B) (cmpA : A -> A -> Z)
    (cmpB : B -> B -> Z) x l :
  (forall a b, cmpB (f a) (f b) = cmpA a b) ->
  sort_insert cmpB (f x) (f <$> l) = f <$> sort_insert cmpA x l.
Proof.
  intros Hf. induction l as [|y l IH]; [done|].
  rewrite fmap_cons. cbn [sort_insert]. rewrite Hf.
  destruct (0 <? cmpA x y)%Z; [|done]. by rewrite fmap_cons, IH.
Qed.

Lemma sort_map {A B} (f : A -> B) (cmpA : A -> A -> Z) (cmpB : B -> B -> Z) l :
  (forall a b, cmpB (f a) (f b) = cmpA a b) ->
  sort cmpB (f <$> l) = f <$> sort cmpA l.
Proof.
  intros Hf. unfold sort. induction l as [|x l IH]; [done|].
  rewrite fmap_cons. cbn [foldr]. rewrite IH. by apply sort_insert_map.
Qed.

(** ** The aggregate *)

Section Aggregate.
Context {R : Type} {env : FetchEnv R}.

(** The body never throws; its value is the sorted concatenation of what
    the chains contributed. *)
Lemma fetchSorted_value entries s :
  (fetchSorted entries s).1 =
    Normal (sort byTimestampDesc
              (allAudits s ++ mjoin (contributions entries (clock s)).*2)).
Proof.
  unfold fetchSorted, mbind, M_bind.
  destruct (forChains_run entries s) as [Hn Ha].
  destruct (forChains entries s) as [c s1]. simpl in *. subst c.
  by rewrite Ha.
Qed.

Lemma fetchSorted_of_forChains entries s :
  (fetchSorted entries s).1 =
    Normal (sort byTimestampDesc (allAudits (forChains entries s).2)).
Proof.
  unfold fetchSorted, mbind, M_bind.
  destruct (forChains_run entries s) as [Hn _].
  destruct (forChains entries s) as [c s1]. simpl in *. by subst c.
Qed.

Lemma forChains_frame entries s :
  forChains entries s =
    (Normal tt, frame s (forChains entries (fresh (clock s))).2).
Proof.
  rewrite (framed_forChains entries s).
  by destruct (forChains_run entries (fresh (clock s))) as [-> _].
Qed.

Lemma forChains_app_run entries1 entries2 s :
  forChains (entries1 ++ entries2) s =
    forChains entries2 (forChains entries1 s).2.
Proof.
  rewrite forChains_app. unfold mbind, M_bind.
  destruct (forChains_run entries1 s) as [Hn _].
  destruct (forChains entries1 s) as [c s1]. simpl in *. by subst c.
Qed.
End Aggregate.

(** ** Reaching a round *)

Section Rounds.
Context {R : Type} {env : FetchEnv R}.

(** A loop that starts round [retryCount + 1] in state [s] goes on from
    there, and nothing was pushed on the way. *)
Lemma roundStarts_loop chainKey chainData contractAddress s0 retryCount s :
  roundStarts chainKey chainData contractAddress s0 retryCount s ->
  whileLoop chainKey chainData contractAddress 0 s0
    = whileLoop chainKey chainData contractAddress retryCount s
  /\ allAudits s = allAudits s0.
Proof.
  induction 1 as [|retryCount s s1 Hstart [IHloop IHa] Hround Hlt]; [done|].
  rewrite IHloop, (whileLoop_step _ _ _ retryCount).
  destruct (decide (retryCount < maxRetries)); [|lia].
  unfold mbind at 1, M_bind at 1. rewrite Hround.
  destruct (decide (S retryCount < maxRetries)); [|lia].
  unfold mbind, M_bind, console, await; simpl.
  rewrite <- app_assoc. split; [done|].
  destruct (forRpcUrls_run chainKey contractAddress retryCount
              (rpcUrls chainData) s)
    as (success & s' & tr & tried & Hrun & _ & _ & _ & _ & Hfail & _).
  rewrite Hround in Hrun. injection Hrun as <- <-.
  destruct (Hfail eq_refl) as [_ ->]. done.
Qed.

(** A round ends at its first successful attempt. *)
Lemma forRpcUrls_first_success chainKey contractAddress retryCount
    pre rpcUrl rest s s1 s2 :
  forRpcUrls chainKey contractAddress retryCount pre s = (Normal false, s1) ->
  tryBody chainKey contractAddress rpcUrl retryCount s1 = (Normal tt, s2) ->
  forRpcUrls chainKey contractAddress retryCount (pre ++ rpcUrl :: rest) s
    = (Normal true, s2).
Proof.
  intros Hpre Htry. rewrite forRpcUrls_app. unfold mbind at 1, M_bind at 1.
  rewrite Hpre. simpl. unfold mbind, M_bind, try_catch. by rewrite Htry.
Qed.

(** The loop ends at its first successful round. *)
Lemma whileLoop_round_success chainKey chainData contractAddress retryCount
    s s' :
  retryCount < maxRetries ->
  forRpcUrls chainKey contractAddress retryCount (rpcUrls chainData) s
    = (Normal true, s') ->
  whileLoop chainKey chainData contractAddress retryCount s = (Normal true, s').
Proof.
  intros Hlt Hround. rewrite whileLoop_step.
  destruct (decide (retryCount < maxRetries)); [|lia].
  unfold mbind, M_bind. by rewrite Hround.
Qed.
End Rounds.

(** ** A successful attempt *)

Section Success.
Context {R : Type} {env : FetchEnv R}.

Lemma bind_ext {A B} (c : M R A) (k k' : A -> M R B) s :
  (forall a s1, k a s1 = k' a s1) -> (c ≫= k) s = (c ≫= k') s.
Proof.
  intros Hk. unfold mbind, M_bind. by destruct (c s) as [[a|e] s1].
Qed.

(** With all five arrays present the attempt succeeds, whatever their
    lengths. *)
Lemma tryBody_success chainKey contractAddress rpcUrl retryCount s
    contract lat1 n lat2 hashes st su au ts :
  let res := mkResult (Some hashes) (Some st) (Some su) (Some au) (Some ts) in
  world rpcUrl contractAddress (clock s) = Normal contract ->
  getTotalContracts contract (clock s) = Settles lat1 (Normal n) ->
  (lat1 < 10000)%N ->
  Number n ≠ 0%Z ->
  getAllAudits contract (clock s + lat1) 0 (Number n)
    = Settles lat2 (Normal (Some res)) ->
  (lat2 < 20000)%N ->
  tryBody chainKey contractAddress rpcUrl retryCount s =
    (Normal tt,
     mkState (allAudits s ++ recordsFrom chainKey res 0 hashes)
       (clock s + lat1 + lat2 + 10 * N.of_nat (batchesOf (length hashes)))
       (trace s ++
        [LogAttemptRpc rpcUrl (retryCount + 1) maxRetries;
         Awaited CountQuery lat1; LogTotal chainKey (Number n);
         Awaited BulkFetch lat2] ++
        replicate (batchesOf (length hashes)) (Awaited BatchPause 10) ++
        [LogProcessed (length hashes) chainKey])).
Proof.
  intros res Hw Hc Hlat1 Hn Hf Hlat2.
  rewrite (tryBody_fetched _ _ _ _ _ _ _ _ _ _ Hw Hc Hlat1 Hn Hf Hlat2).
  simpl. unfold mbind, M_bind. rewrite forBatches_spec.
  destruct (decide (0 < length hashes)) as [Hpos|Hz].
  - subst res. rewrite pushGuard_present. simpl.
    unfold console; simpl. rewrite Nat.sub_0_r, <- !app_assoc. done.
  - assert (hashes = []) as -> by (destruct hashes; [done|simpl in Hz; lia]).
    unfold console; simpl. rewrite !app_nil_r, N.add_0_r, <- !app_assoc. done.
Qed.
End Success.

(** ** The two pages run alike *)

Section TwoPages.
Variable world : World.
Variable addresses : gmap string string.
Variable userAddress : string.

Local Abbreviation env1 := (reportsEnv world addresses).
Local Abbreviation env2 := (profileEnv world addresses userAddress).
Local Abbreviation sim := (sim userAddress).

Lemma viewOf_app l1 l2 :
  viewOf userAddress (l1 ++ l2) = viewOf userAddress l1 ++ viewOf userAddress l2.
Proof. unfold viewOf. by rewrite filter_app, fmap_app. Qed.

Lemma sim_ret {A} (a : A) : sim (mret a) (mret a).
Proof. by intros s1 s2 H. Qed.

Lemma sim_throw {A} e : sim (throw e : M _ A) (throw e).
Proof. by intros s1 s2 H. Qed.

Lemma sim_lift {A} (c : Completion A) : sim (lift c) (lift c).
Proof. by intros s1 s2 H. Qed.

Lemma sim_console e : sim (console e) (console e).
Proof.
  intros s1 s2 (Ha & Hc & Ht). unfold console, sameRun; simpl.
  by rewrite Ht.
Qed.

Lemma sim_await what d : sim (await what d) (await what d).
Proof.
  intros s1 s2 (Ha & Hc & Ht). unfold await, sameRun; simpl.
  by rewrite Ht, Hc.
Qed.

Lemma sim_bind {A B} (c1 : M _ A) c2 (k1 : A -> M _ B) k2 :
  sim c1 c2 -> (forall a, sim (k1 a) (k2 a)) -> sim (c1 ≫= k1) (c2 ≫= k2).
Proof.
  intros Hc Hk s1 s2 Hs. unfold mbind, M_bind.
  destruct (Hc s1 s2 Hs) as [H1 H2].
  destruct (c1 s1) as [[a|e] s1'], (c2 s2) as [[a'|e'] s2'];
    simpl in *; try done.
  - injection H1 as <-. by apply Hk.
  - by injection H1 as <-.
Qed.

Lemma sim_try_catch {A} (c1 : M _ A) c2 h1 h2 :
  sim c1 c2 -> (forall e, sim (h1 e) (h2 e)) ->
  sim (try_catch c1 h1) (try_catch c2 h2).
Proof.
  intros Hc Hh s1 s2 Hs. unfold try_catch.
  destruct (Hc s1 s2 Hs) as [H1 H2].
  destruct (c1 s1) as [[a|e] s1'], (c2 s2) as [[a'|e'] s2'];
    simpl in *; try done.
  injection H1 as <-. by apply Hh.
Qed.

Lemma sim_await_race {A} what (p : Call A) timeout msg :
  sim (await_race what p timeout msg) (await_race what p timeout msg).
Proof.
  unfold await_race. destruct (race_timeout p timeout msg).
  apply sim_bind; [apply sim_await | intros; apply sim_lift].
Qed.

(** The guard of the profile page is the guard of the reports page
    followed by the identity test. *)
Lemma pushGuard_pages result k :
  pushGuard (env := env2) result k =
    match pushGuard (env := env1) result k with
    | Normal true =>
        Normal (sameAddress userAddress (at_index (auditors result) k))
    | other => other
    end.
Proof.
  unfold pushGuard, and_then, lt_length, lengthOf; simpl.
  destruct (stars result), (summaries result), (auditors result),
    (timestamps result); simpl;
    repeat match goal with
      | |- context [?a <? ?b] => destruct (a <? b)
      end; done.
Qed.

Lemma recordsFrom_pages chainKey result k l :
  recordsFrom (env := env2) chainKey result k l =
    viewOf userAddress (recordsFrom (env := env1) chainKey result k l).
Proof.
  revert k. induction l as [|hash l IH]; intros k; simpl; [done|].
  rewrite viewOf_app, IH. f_equal.
  unfold recordAt. rewrite pushGuard_pages.
  destruct (pushGuard (env := env1) result k) as [[]|]; try done.
  unfold viewOf. rewrite filter_cons. simpl.
  by destruct (sameAddress userAddress (at_index (auditors result) k)).
Qed.

Lemma sim_forBatches chainKey result hashes i :
  sim (forBatches (env := env1) chainKey result hashes i)
    (forBatches (env := env2) chainKey result hashes i).
Proof.
  intros s1 s2 (Ha & Hc & Ht). rewrite !forBatches_spec.
  destruct (decide (i < length hashes)); [|done].
  rewrite pushGuard_pages.
  destruct (pushGuard (env := env1) result i) as [[]|]; simpl; try done;
    unfold sameRun; simpl;
    by rewrite viewOf_app, recordsFrom_pages, Ha, Hc, Ht.
Qed.

Lemma sim_currentTime : sim currentTime currentTime.
Proof. intros s1 s2 (Ha & Hc & Ht). unfold currentTime; simpl. by rewrite Hc. Qed.

Ltac sim_step :=
  first
    [ apply sim_console | apply sim_await | apply sim_await_race
    | apply sim_lift | apply sim_throw | apply sim_ret
    | apply sim_currentTime | apply sim_forBatches
    | apply sim_bind; [|intros ?]
    | apply sim_try_catch; [|intros ?]
    | case_match ].

Lemma sim_tryBody chainKey contractAddress rpcUrl retryCount :
  sim (tryBody (env := env1) chainKey contractAddress rpcUrl retryCount)
    (tryBody (env := env2) chainKey contractAddress rpcUrl retryCount).
Proof.
  unfold tryBody. simpl. repeat sim_step.
Qed.

Lemma sim_forRpcUrls chainKey contractAddress retryCount urls :
  sim (forRpcUrls (env := env1) chainKey contractAddress retryCount urls)
    (forRpcUrls (env := env2) chainKey contractAddress retryCount urls).
Proof.
  induction urls as [|rpcUrl rest IH]; simpl; [apply sim_ret|].
  apply sim_bind; [|intros []; [apply sim_ret | apply IH]].
  apply sim_try_catch; [|intros e].
  - apply sim_bind; [apply sim_tryBody | intros; apply sim_ret].
  - apply sim_bind; [|intros; apply sim_ret].
    unfold catchClause. repeat sim_step.
Qed.

Lemma sim_ext {A} (c1 c1' : M _ A) c2 c2' :
  (forall s, c1 s = c1' s) -> (forall s, c2 s = c2' s) ->
  sim c1' c2' -> sim c1 c2.
Proof. intros H1 H2 Hsim s1 s2 Hs. rewrite H1, H2. by apply Hsim. Qed.

Lemma sim_whileLoop chainKey chainData contractAddress retryCount :
  sim (whileLoop (env := env1) chainKey chainData contractAddress retryCount)
    (whileLoop (env := env2) chainKey chainData contractAddress retryCount).
Proof.
  remember (maxRetries - retryCount) as n eqn:Hn.
  revert retryCount Hn. induction n as [|n IH]; intros retryCount Hn;
    (eapply sim_ext; [intros s; apply whileLoop_step
                     |intros s; apply whileLoop_step|]);
    destruct (decide (retryCount < maxRetries)); try lia.
  - apply sim_ret.
  - apply sim_bind; [apply sim_forRpcUrls|].
    intros []; [apply sim_ret|].
    apply sim_bind; [|intros _; apply IH; lia].
    destruct (decide (S retryCount < maxRetries)); repeat sim_step.
Qed.

Lemma sim_forChains entries :
  sim (forChains (env := env1) entries) (forChains (env := env2) entries).
Proof.
  induction entries as [|[chainKey chainData] rest IH]; simpl;
    [apply sim_ret|].
  apply sim_bind; [|by intros _].
  unfold forChain. simpl.
  apply sim_bind; [apply sim_console|intros _].
  destruct (falsy (getProperty addresses chainKey)); [apply sim_console|].
  apply sim_bind; [apply sim_whileLoop|].
  intros []; [apply sim_ret | apply sim_console].
Qed.

(** The sorted list of the profile page is the sorted list of the reports
    page, filtered on the auditor and stripped. *)
Lemma fetchSorted_pages entries :
  exists reports,
    (fetchSorted (env := env1) entries (fresh 0)).1 = Normal reports
    /\ (fetchSorted (env := env2) entries (fresh 0)).1
         = Normal (viewOf userAddress reports).
Proof.
  rewrite !fetchSorted_of_forChains. eexists. split; [done|]. f_equal.
  destruct (sim_forChains entries (fresh 0) (fresh 0)) as (_ & -> & _);
    [done|].
  unfold viewOf.
  rewrite (filter_sort _ timestamp) by done.
  by apply sort_map.
Qed.
End TwoPages.

(** ** The filter panel of the reports page *)

(** [getFilteredReports] keeps the reports in their order. *)
Lemma getFilteredReports_sublist nowMs filters reports :
  getFilteredReports nowMs filters reports `sublist_of` reports.
Proof. apply sublist_filter. Qed.

(** With only a search text set, it keeps the reports whose hash or
    auditor contains the text, letter case aside. *)
Lemma getFilteredReports_search nowMs q reports r :
  q ≠ "" ->
  r ∈ getFilteredReports nowMs (mkFilters q "all" RangeAll 0) reports <->
  r ∈ reports
  /\ (includes (toLowerCase (contractHash r)) (toLowerCase q) = true
      \/ includes (toLowerCase (auditor r)) (toLowerCase q) = true).
Proof.
  intros Hq%String.eqb_neq. unfold getFilteredReports.
  rewrite list_elem_of_filter. unfold passesFilters; simpl. rewrite Hq; simpl.
  destruct (includes (toLowerCase (contractHash r)) _),
    (includes (toLowerCase (auditor r)) _); simpl; intuition discriminate.
Qed.

(** ** The profile statistics as a function of what was pushed *)

Lemma fetchUserStats_run world addresses entries userAddress :
  let pushed :=
    allAudits (forChains (env := profileEnv world addresses userAddress)
                 entries (fresh 0)).2 in
  let allAudits :=
    sort (byTimestampDesc (env := profileEnv world addresses userAddress))
      pushed in
  (fetchUserStats world addresses entries userAddress).1 =
    Normal (mkStats (length pushed)
              (foldl (fun totalStars a => Number (totalStars + ua_stars a))
                 0%Z pushed)
              (foldl (fun chainCounts a => bump chainCounts (ua_chain a))
                 ∅ pushed)
              (slice 0 5 allAudits))
  /\ (fetchSorted (env := profileEnv world addresses userAddress) entries
        (fresh 0)).1 = Normal allAudits.
Proof.
  intros pushed sorted. split; [|apply fetchSorted_of_forChains].
  unfold fetchUserStats. unfold mbind at 1, M_bind at 1.
  pose proof (forChains_run (env := profileEnv world addresses userAddress)
                entries (fresh 0)) as [Hn _].
  subst sorted pushed.
  destruct (forChains entries (fresh 0)) as [c s1]. simpl in Hn. by subst c.
Qed.

(** * The claims *)

(** C1, as stated, fails: a response whose [stars] array is one shorter
    than the others is not rejected.  The attempt completes normally and the
    two records whose index is within all five arrays are pushed. *)
Lemma C1_counterexample :
  let run :=
    tryBody (env := reportsEnv shortStarsWorld sampleAddresses)
      "monadTestnet" "0xRegistry1" "https://testnet-rpc.monad.xyz" 0 (fresh 0) in
  (length <$> contractHashes shortStars) = Some 3
  /\ (length <$> stars shortStars) = Some 2
  /\ run.1 = Normal tt
  /\ run.1 ≠ Throw (Error "Invalid response format")
  /\ allAudits run.2 =
       [mkAuditReport "0xh1" 5 "ok" "0xA1" 10 "monadTestnet";
        mkAuditReport "0xh2" 4 "" "0xa2" 20 "monadTestnet"]
  /\ trace run.2 =
       [LogAttemptRpc "https://testnet-rpc.monad.xyz" 1 3;
        Awaited CountQuery 5; LogTotal "monadTestnet" 3;
        Awaited BulkFetch 7; Awaited BatchPause 10;
        LogProcessed 3 "monadTestnet"].
Proof. vm_compute. repeat split; congruence. Qed.

(** C1, amended.  Of a bulk-fetch response that arrives in time:
    - one that is null, or whose [contractHashes] is not an array, is
      rejected with the error "Invalid response format", and [allAudits] is
      left as it was;
    - one with all five arrays present is accepted whatever their lengths:
      the attempt completes normally, and [allAudits] grows by one record
      for each hash whose index lies within [stars], [summaries],
      [auditors] and [timestamps] (and passes the identity test), in index
      order;
    - and whenever the attempt throws, [allAudits] is left as it was. *)
Theorem C1_response_shape {R : Type} (env : FetchEnv R)
    (chainKey contractAddress rpcUrl : string) (retryCount : nat)
    (s : State R) (contract : Contract) (lat1 lat2 : N) (n : Z)
    (result : option AuditsResult) :
  world rpcUrl contractAddress (clock s) = Normal contract ->
  getTotalContracts contract (clock s) = Settles lat1 (Normal n) ->
  (lat1 < 10000)%N ->
  Number n ≠ 0%Z ->
  getAllAudits contract (clock s + lat1) 0 (Number n)
    = Settles lat2 (Normal result) ->
  (lat2 < 20000)%N ->
  let run := tryBody chainKey contractAddress rpcUrl retryCount s in
  (result = None \/ (exists res, result = Some res /\ contractHashes res = None) ->
     run.1 = Throw (Error "Invalid response format")
     /\ allAudits run.2 = allAudits s)
  /\ (forall hashes st su au ts,
        let res :=
          mkResult (Some hashes) (Some st) (Some su) (Some au) (Some ts) in
        result = Some res ->
        run.1 = Normal tt
        /\ allAudits run.2 = allAudits s ++ recordsFrom chainKey res 0 hashes
        /\ forall k hash,
             recordAt chainKey res k hash =
               if (k <? length st) && (k <? length su) && (k <? length au)
                  && (k <? length ts) && keep (au !!! k)
               then [mkAudit hash (Number (st !!! k)) (orEmpty (su !!! k))
                       (au !!! k) (Number (ts !!! k)) chainKey]
               else [])
  /\ (forall e, run.1 = Throw e -> allAudits run.2 = allAudits s).
Proof.
  intros Hw Hc Hlat1 Hn Hf Hlat2 run. split; [|split].
  - intros Hbad. subst run.
    rewrite (tryBody_fetched _ _ _ _ _ _ _ _ _ _ Hw Hc Hlat1 Hn Hf Hlat2).
    by destruct Hbad as [->|(res & -> & ->)].
  - intros hashes st su au ts res ->. subst run.
    rewrite (tryBody_success _ _ _ _ _ _ _ _ _ _ _ _ _ _ Hw Hc Hlat1 Hn Hf Hlat2).
    split; [done|]. split; [done|].
    intros k hash. unfold recordAt. subst res. rewrite pushGuard_present.
    by destruct (_ && _).
  - subst run.
    by destruct (tryBody_run chainKey contractAddress rpcUrl retryCount s)
      as (_ & _ & _ & Hthrow & _).
Qed.

(** The response of [shortStarsWorld] is accepted, two records pushed. *)
Lemma C1_witness :
  let run :=
    tryBody (env := reportsEnv shortStarsWorld sampleAddresses)
      "monadTestnet" "0xRegistry1" "https://testnet-rpc.monad.xyz" 0 (fresh 0) in
  run.1 = Normal tt /\ length (allAudits run.2) = 2.
Proof.
  destruct
    (C1_response_shape (reportsEnv shortStarsWorld sampleAddresses)
       "monadTestnet" "0xRegistry1" "https://testnet-rpc.monad.xyz" 0 (fresh 0)
       (mkContract (fun _ => Settles 5 (Normal 3%Z))
          (fun _ _ _ => Settles 7 (Normal (Some shortStars))))
       5 7 3 (Some shortStars) eq_refl eq_refl eq_refl
       ltac:(vm_compute; discriminate) eq_refl eq_refl)
    as (_ & Hok & _).
  destruct (Hok _ _ _ _ _ eq_refl) as (Hrun & Hrecs & _).
  split; [exact Hrun|]. rewrite Hrecs. reflexivity.
Defined.

(** C2, as stated, fails: over the three rounds of a chain whose endpoints
    all time out, the backoff waits add up to 12 000 ms, not to
    [baseDelay * (2 + 4 + 8)] = 28 000 ms. *)
Lemma C2_counterexample :
  let run := fetchAllChainAudits deadWorld sampleAddresses CHAIN_CONFIG_entries in
  let u1 :=
    "https://monad-testnet.g.alchemy.com/v2/cPagatQQ9SL_dZvqKBJYoc_dG2cHbmcA" in
  let u2 := "https://testnet-rpc.monad.xyz" in
  let failed u k :=
    [LogAttemptRpc u k 3; Awaited CountQuery 10000;
     WarnRpcFailed u "getTotalContracts timeout"] in
  run.1 = Normal []
  /\ trace run.2 =
       [LogFetchFrom "monadTestnet"] ++
       failed u1 1 ++ failed u2 1 ++
       [LogRetrying "monadTestnet" 4000; Awaited Backoff 4000] ++
       failed u1 2 ++ failed u2 2 ++
       [LogRetrying "monadTestnet" 8000; Awaited Backoff 8000] ++
       failed u1 3 ++ failed u2 3 ++
       [ErrorFailed "monadTestnet" 3]
  /\ sumN (awaits Backoff (trace run.2)) = 12000%N
  /\ sumN (awaits Backoff (trace run.2)) ≠ (baseDelay * (2 + 4 + 8))%N.
Proof. vm_compute. repeat split; congruence. Qed.

(** C2, amended.  When every attempt on every endpoint of a chain throws,
    the retry loop runs exactly [maxRetries] = 3 full rounds, pushes
    nothing, and waits [baseDelay * 2^k] after the failed round number [k]
    for [k] = 1 and 2 only: there is no wait after the last round, and the
    backoff waits add up to [baseDelay * (2 + 4)] ms. *)
Theorem C2_backoff_when_all_fail {R : Type} (env : FetchEnv R)
    (chainKey : string) (chainData : ChainConfig) (contractAddress : string)
    (s : State R) :
  (forall url rc s0, url ∈ rpcUrls chainData ->
     exists e, (tryBody chainKey contractAddress url rc s0).1 = Throw e) ->
  exists s' tr,
    whileLoop chainKey chainData contractAddress 0 s = (Normal false, s')
    /\ trace s' = trace s ++ tr
    /\ schedule tr =
         (let round k := inl <$> map (fun u => (u, k)) (rpcUrls chainData) in
          round 1 ++ inr (baseDelay * 2 ^ 1)%N
          :: round 2 ++ inr (baseDelay * 2 ^ 2)%N
          :: round 3)
    /\ attempts tr = roundAttempts 0 (replicate maxRetries (rpcUrls chainData))
    /\ awaits Backoff tr = [baseDelay * 2 ^ 1; baseDelay * 2 ^ 2]%N
    /\ sumN (awaits Backoff tr) = (baseDelay * (2 + 4))%N
    /\ allAudits s' = allAudits s.
Proof.
  intros Hfail.
  assert (Hloop : (whileLoop chainKey chainData contractAddress 0 s).1
                  = Normal false).
  { apply whileLoop_fail. intros rc s0. apply forRpcUrls_fail.
    intros url s1 Hin. by apply Hfail. }
  destruct (whileLoop_run chainKey chainData contractAddress 0 s)
    as (success & s' & tr & rounds & Hrun & Htr & _ & _ & Hatt & Hsch & _
        & Hback & _ & _ & Hgiveup & _).
  rewrite Hrun in Hloop. simpl in Hloop. injection Hloop as ->.
  destruct (Hgiveup eq_refl) as (Hlen & Hall & Ha).
  assert (rounds = replicate maxRetries (rpcUrls chainData)) as ->.
  { rewrite Nat.sub_0_r in Hlen. rewrite <- Hlen.
    clear -Hall. induction Hall as [|? ? -> _ IH]; simpl; [done|]. by f_equal. }
  exists s', tr. rewrite Hback, Hsch. simpl. by rewrite app_nil_r.
Qed.

(** With every count query hanging, the loop of [monadTestnet] gives up
    after waiting 12 000 ms between rounds. *)
Lemma C2_witness :
  exists s' tr,
    whileLoop (env := reportsEnv deadWorld sampleAddresses)
      "monadTestnet" monadTestnet "0xRegistry1" 0 (fresh 0) = (Normal false, s')
    /\ trace s' = tr
    /\ sumN (awaits Backoff tr) = 12000%N.
Proof.
  destruct (C2_backoff_when_all_fail (reportsEnv deadWorld sampleAddresses)
              "monadTestnet" monadTestnet "0xRegistry1" (fresh 0))
    as (s' & tr & Hrun & Htr & _ & _ & _ & Hsum & _).
  - intros url rc s0 _. eexists. reflexivity.
  - exists s', tr. split; [exact Hrun|]. split; [exact Htr|]. exact Hsum.
Defined.

(** C3.  Whatever the chain table, the address table and the behaviour of
    the endpoints, [fetchAllChainAudits] completes normally with a list of
    reports, and that list holds every record each chain pushed in its
    turn: a chain that fails takes nothing away from the others. *)
Theorem C3_aggregation_never_throws (world : World)
    (CONTRACT_ADDRESSES : gmap string string)
    (CHAIN_CONFIG : list (string * ChainConfig)) :
  exists reports,
    (fetchAllChainAudits world CONTRACT_ADDRESSES CHAIN_CONFIG).1
      = Normal reports
    /\ Forall (fun kr => kr.2 ⊆ reports)
         (contributions (env := reportsEnv world CONTRACT_ADDRESSES)
            CHAIN_CONFIG 0).
Proof.
  unfold fetchAllChainAudits. rewrite fetchSorted_value. simpl.
  eexists. split; [done|].
  apply Forall_forall. intros [chainKey recs] Hin r Hr. simpl in *.
  rewrite sort_perm. apply list_elem_of_join. exists recs. split; [done|].
  apply list_elem_of_fmap. by exists (chainKey, recs).
Qed.

(** With the endpoints of the first chain hanging and the second chain
    answering, the two records of the second chain are reported. *)
Lemma C3_witness :
  exists reports,
    (fetchAllChainAudits mixedWorld sampleAddresses twoChains).1 = Normal reports
    /\ length reports = 2.
Proof.
  destruct (C3_aggregation_never_throws mixedWorld sampleAddresses twoChains)
    as (reports & Hrun & _).
  exists reports. split; [exact Hrun|].
  vm_compute in Hrun. injection Hrun as <-. reflexivity.
Defined.

(** C4.  The reported list is a rearrangement of the concatenation of the
    chains' contributions, and it is in descending order of timestamp:
    each record's timestamp is at least that of the record after it,
    whichever chains the two came from. *)
Theorem C4_sorted_by_timestamp (world : World)
    (CONTRACT_ADDRESSES : gmap string string)
    (CHAIN_CONFIG : list (string * ChainConfig)) :
  exists reports,
    (fetchAllChainAudits world CONTRACT_ADDRESSES CHAIN_CONFIG).1
      = Normal reports
    /\ reports ≡ₚ
         mjoin (contributions (env := reportsEnv world CONTRACT_ADDRESSES)
                   CHAIN_CONFIG 0).*2
    /\ Sorted (descBy timestamp) reports.
Proof.
  unfold fetchAllChainAudits. rewrite fetchSorted_value. simpl.
  eexists. split; [done|]. split; [apply sort_perm|].
  apply StronglySorted_Sorted.
  by apply (sort_sorted _ timestamp).
Qed.

(** C5.  For a chain whose first endpoint answers the count query (with a
    non-zero count) and the bulk fetch in time on the first attempt, the
    five arrays being of one length: the chain's iteration pushes exactly
    the records of that response, one per index and each tagged with the
    chain's key; it makes that single attempt and waits for no backoff.
    When the response holds 120 records the batch loop makes three passes,
    over slices of 50, 50 and 20 hashes. *)
Theorem C5_first_endpoint_succeeds (world : World)
    (addresses : gmap string string)
    (chainKey : string) (chainData : ChainConfig) (contractAddress : string)
    (rpcUrl : string) (rest : list string) (s : State AuditReport)
    (contract : Contract) (lat1 lat2 : N) (n : Z)
    (hashes : list string) (st : list Z) (su au : list string) (ts : list Z) :
  let env := reportsEnv world addresses in
  let res := mkResult (Some hashes) (Some st) (Some su) (Some au) (Some ts) in
  addresses !! chainKey = Some contractAddress ->
  contractAddress ≠ "" ->
  rpcUrls chainData = rpcUrl :: rest ->
  world rpcUrl contractAddress (clock s) = Normal contract ->
  getTotalContracts contract (clock s) = Settles lat1 (Normal n) ->
  (lat1 < 10000)%N ->
  Number n ≠ 0%Z ->
  getAllAudits contract (clock s + lat1) 0 (Number n)
    = Settles lat2 (Normal (Some res)) ->
  (lat2 < 20000)%N ->
  length st = length hashes -> length su = length hashes ->
  length au = length hashes -> length ts = length hashes ->
  let pushed := recordsOfResponse chainKey hashes st su au ts in
  forChain (chainKey, chainData) s =
    (Normal tt,
     mkState (allAudits s ++ pushed)
       (clock s + lat1 + lat2 + 10 * N.of_nat (batchesOf (length hashes)))
       (trace s ++
        [LogFetchFrom chainKey; LogAttemptRpc rpcUrl 1 maxRetries;
         Awaited CountQuery lat1; LogTotal chainKey (Number n);
         Awaited BulkFetch lat2] ++
        replicate (batchesOf (length hashes)) (Awaited BatchPause 10) ++
        [LogProcessed (length hashes) chainKey]))
  /\ length pushed = length hashes
  /\ Forall (fun r => chain r = chainKey) pushed
  /\ (length hashes = 120 ->
      batchesOf (length hashes) = 3
      /\ length <$> [slice 0 50 hashes; slice 50 100 hashes;
                     slice 100 150 hashes] = [50; 50; 20]
      /\ forall s1,
           forBatches chainKey res hashes 0 s1 =
             ((forEach (callback chainKey res 0) (slice 0 50 hashes) 0 ;;
               await BatchPause 10) ;;
              (forEach (callback chainKey res 50) (slice 50 100 hashes) 0 ;;
               await BatchPause 10) ;;
              (forEach (callback chainKey res 100) (slice 100 150 hashes) 0 ;;
               await BatchPause 10) ;;
              mret tt) s1).
Proof.
  intros env res Haddr Hne Hurls Hw Hc Hlat1 Hn Hf Hlat2 H1 H2 H3 H4 pushed.
  split; [|split; [|split]].
  - unfold forChain. unfold mbind at 1, M_bind at 1, console at 1.
    change (@CONTRACT_ADDRESSES _ env) with addresses.
    cbv zeta. unfold getProperty. rewrite Haddr. cbn [falsy].
    apply String.eqb_neq in Hne. rewrite Hne.
    change (Own contractAddress) with (ownAddress contractAddress).
    unfold mbind, M_bind.
    set (s0 := mkState (allAudits s) (clock s) (trace s ++ [LogFetchFrom chainKey])).
    rewrite (whileLoop_round_success chainKey chainData contractAddress 0 s0
               (mkState (allAudits s ++ pushed)
                  (clock s + lat1 + lat2 + 10 * N.of_nat (batchesOf (length hashes)))
                  (trace s0 ++
                   [LogAttemptRpc rpcUrl 1 maxRetries;
                    Awaited CountQuery lat1; LogTotal chainKey (Number n);
                    Awaited BulkFetch lat2] ++
                   replicate (batchesOf (length hashes)) (Awaited BatchPause 10) ++
                   [LogProcessed (length hashes) chainKey]))).
    + unfold mret, M_ret. subst s0. simpl. by rewrite <- !app_assoc.
    + unfold maxRetries. lia.
    + rewrite Hurls.
      apply (forRpcUrls_first_success chainKey contractAddress 0 [] rpcUrl rest
               s0 s0); [done|].
      rewrite (tryBody_success (env := env) chainKey contractAddress rpcUrl 0 s0 contract
                 lat1 n lat2 hashes st su au ts Hw Hc Hlat1 Hn Hf Hlat2).
      subst s0 pushed. simpl.
      by rewrite (recordsFrom_all chainKey (Some hashes) st su au ts hashes 0)
        by (done || simpl; lia).
  - subst pushed. unfold recordsOfResponse. by rewrite length_imap.
  - subst pushed. unfold recordsOfResponse. apply Forall_forall.
    intros r Hr. apply list_elem_of_lookup in Hr as [i Hi].
    rewrite list_lookup_imap in Hi.
    destruct (hashes !! i); simpl in Hi; [|done]. by injection Hi as <-.
  - intros Hlen. split; [by rewrite Hlen|]. split.
    + unfold slice. simpl. rewrite !length_take, !length_drop, Hlen. done.
    + intros s1. rewrite forBatches_step.
      destruct (decide (0 < length hashes)); [|lia].
      apply bind_ext. intros _ s2. rewrite forBatches_step.
      destruct (decide (0 + batchSize < length hashes));
        [|unfold batchSize in *; lia].
      apply bind_ext. intros _ s3. rewrite forBatches_step.
      destruct (decide (0 + batchSize + batchSize < length hashes));
        [|unfold batchSize in *; lia].
      apply bind_ext. intros _ s4. rewrite forBatches_step.
      destruct (decide (0 + batchSize + batchSize + batchSize < length hashes));
        [unfold batchSize in *; lia|done].
Qed.

(** The 120 records of [world120] are pushed in one attempt and three
    batches. *)
Lemma C5_witness :
  let run :=
    forChain (env := reportsEnv world120 sampleAddresses)
      ("monadTestnet", monadTestnet) (fresh 0) in
  run.1 = Normal tt
  /\ length (allAudits run.2) = 120
  /\ awaits BatchPause (trace run.2) = [10; 10; 10]%N
  /\ awaits Backoff (trace run.2) = []
  /\ length (attempts (trace run.2)) = 1.
Proof.
  destruct
    (C5_first_endpoint_succeeds world120 sampleAddresses
       "monadTestnet" monadTestnet "0xRegistry1"
       "https://monad-testnet.g.alchemy.com/v2/cPagatQQ9SL_dZvqKBJYoc_dG2cHbmcA"
       ["https://testnet-rpc.monad.xyz"] (fresh 0)
       (mkContract (fun _ => Settles 5 (Normal 120%Z))
          (fun _ _ _ => Settles 7 (Normal (Some result120))))
       5 7 120 hashes120 (replicate 120 3%Z) (replicate 120 "fine")
       (replicate 120 "0xAuditor") (Z.of_nat <$> seq 0 120)
       eq_refl ltac:(discriminate) eq_refl eq_refl eq_refl eq_refl
       ltac:(vm_compute; discriminate) eq_refl eq_refl
       eq_refl eq_refl eq_refl eq_refl)
    as (Hrun & Hlen & _ & _).
  intros run. subst run. rewrite Hrun. simpl.
  split; [reflexivity|]. split; [exact Hlen|]. vm_compute. repeat split.
Defined.

(** C6.  Let the retry loop of a chain have reached some round, and in
    that round some endpoint, every earlier attempt having failed.  If the
    count query on that endpoint answers zero in time, the attempt prints
    the count and that there are no contracts and nothing else: no bulk
    fetch is awaited.  The round and the loop end there with [success]
    true: no further endpoint is tried, no further round is run, no backoff
    is waited, and the chain has pushed nothing. *)
Theorem C6_zero_count_stops {R : Type} (env : FetchEnv R)
    (chainKey : string) (chainData : ChainConfig) (contractAddress : string)
    (s0 s s1 : State R) (retryCount : nat) (pre : list string)
    (rpcUrl : string) (rest : list string) (contract : Contract) (lat : N) :
  roundStarts chainKey chainData contractAddress s0 retryCount s ->
  retryCount < maxRetries ->
  rpcUrls chainData = pre ++ rpcUrl :: rest ->
  forRpcUrls chainKey contractAddress retryCount pre s = (Normal false, s1) ->
  world rpcUrl contractAddress (clock s1) = Normal contract ->
  getTotalContracts contract (clock s1) = Settles lat (Normal 0%Z) ->
  (lat < 10000)%N ->
  let s' :=
    mkState (allAudits s0) (clock s1 + lat)
      (trace s1 ++ [LogAttemptRpc rpcUrl (retryCount + 1) maxRetries;
                    Awaited CountQuery lat; LogTotal chainKey 0;
                    LogNoContracts chainKey]) in
  tryBody chainKey contractAddress rpcUrl retryCount s1 = (Normal tt, s')
  /\ forRpcUrls chainKey contractAddress retryCount (rpcUrls chainData) s
       = (Normal true, s')
  /\ whileLoop chainKey chainData contractAddress 0 s0 = (Normal true, s').
Proof.
  intros Hstart Hlt Hurls Hpre Hw Hcount Hlat s'.
  destruct (roundStarts_loop _ _ _ _ _ _ Hstart) as [Hloop Ha].
  destruct (forRpcUrls_run chainKey contractAddress retryCount pre s)
    as (success & s1' & tr & tried & Hrun & _ & _ & _ & _ & Hfail & _).
  rewrite Hpre in Hrun. injection Hrun as <- <-.
  destruct (Hfail eq_refl) as [_ Ha1].
  assert (Htry : tryBody chainKey contractAddress rpcUrl retryCount s1
                 = (Normal tt, s')).
  { rewrite (tryBody_count_zero _ _ _ _ _ _ _ Hw Hcount Hlat).
    subst s'. by rewrite Ha1, Ha. }
  assert (Hround : forRpcUrls chainKey contractAddress retryCount
                     (rpcUrls chainData) s = (Normal true, s')).
  { rewrite Hurls. by eapply forRpcUrls_first_success. }
  split; [done|]. split; [done|].
  rewrite Hloop. by apply whileLoop_round_success.
Qed.

(** On the empty registry the first attempt of the first round settles the
    chain. *)
Lemma C6_witness :
  whileLoop (env := reportsEnv emptyWorld sampleAddresses)
    "monadTestnet" monadTestnet "0xRegistry1" 0 (fresh 0)
  = (Normal true,
     mkState [] 5
       [LogAttemptRpc
          "https://monad-testnet.g.alchemy.com/v2/cPagatQQ9SL_dZvqKBJYoc_dG2cHbmcA"
          1 3;
        Awaited CountQuery 5; LogTotal "monadTestnet" 0;
        LogNoContracts "monadTestnet"]).
Proof.
  exact (proj2 (proj2
    (C6_zero_count_stops (reportsEnv emptyWorld sampleAddresses)
       "monadTestnet" monadTestnet "0xRegistry1" (fresh 0) _ _ 0 []
       "https://monad-testnet.g.alchemy.com/v2/cPagatQQ9SL_dZvqKBJYoc_dG2cHbmcA"
       ["https://testnet-rpc.monad.xyz"]
       (mkContract (fun _ => Settles 5 (Normal 0%Z)) (fun _ _ _ => Pending)) 5
       (round_first _ _ _ _) ltac:(unfold maxRetries; lia) eq_refl eq_refl
       eq_refl eq_refl eq_refl))).
Defined.

(** C7.  Every record a chain pushes carries that chain's key and is in
    the reported list, and every reported record was pushed by the chain
    whose key it carries. *)
Theorem C7_attribution_preserved (world : World)
    (CONTRACT_ADDRESSES : gmap string string)
    (CHAIN_CONFIG : list (string * ChainConfig)) :
  let pushed :=
    contributions (env := reportsEnv world CONTRACT_ADDRESSES) CHAIN_CONFIG 0 in
  exists reports,
    (fetchAllChainAudits world CONTRACT_ADDRESSES CHAIN_CONFIG).1
      = Normal reports
    /\ pushed.*1 = CHAIN_CONFIG.*1
    /\ Forall (fun kr => Forall (fun r => chain r = kr.1 /\ r ∈ reports) kr.2)
         pushed
    /\ Forall (fun r => exists kr, kr ∈ pushed /\ r ∈ kr.2 /\ chain r = kr.1)
         reports.
Proof.
  intros pushed. unfold fetchAllChainAudits. rewrite fetchSorted_value. simpl.
  eexists. split; [done|]. split; [apply contributions_keys|].
  pose proof (contributions_tagged (env := reportsEnv world CONTRACT_ADDRESSES)
                CHAIN_CONFIG 0) as Htag.
  fold pushed in Htag |- *.
  assert (Hchain : forall kr r, kr ∈ pushed -> r ∈ kr.2 -> chain r = kr.1).
  { intros kr r Hkr Hr. rewrite Forall_forall in Htag.
    specialize (Htag kr Hkr). rewrite Forall_forall in Htag.
    by destruct (Htag r Hr) as (? & ? & ? & ? & ? & ->). }
  split.
  - apply Forall_forall. intros kr Hkr. apply Forall_forall. intros r Hr.
    split; [by apply Hchain|].
    rewrite sort_perm. apply list_elem_of_join. exists kr.2. split; [done|].
    apply list_elem_of_fmap. by exists kr.
  - apply Forall_forall. intros r Hr. rewrite sort_perm in Hr.
    apply list_elem_of_join in Hr as (recs & Hr & Hrecs).
    apply list_elem_of_fmap in Hrecs as (kr & -> & Hkr).
    exists kr. split; [done|]. split; [done|]. by apply Hchain.
Qed.

(** C8.  The profile page fetches with the identity [userAddress]; the
    reports page fetches without one.  On the same chains and the same
    network, the records the profile page ends with are exactly the reports
    whose auditor equals [userAddress] up to letter case, in the order the
    reports page has them (its five most recent are the first five of
    these). *)
Theorem C8_identity_filter (world : World) (addresses : gmap string string)
    (CHAIN_CONFIG : list (string * ChainConfig)) (userAddress : string) :
  exists reports stats,
    (fetchAllChainAudits world addresses CHAIN_CONFIG).1 = Normal reports
    /\ (fetchUserStats world addresses CHAIN_CONFIG userAddress).1 = Normal stats
    /\ let kept :=
         filter (fun r => sameAddress userAddress (auditor r)) reports in
       (fetchSorted (env := profileEnv world addresses userAddress)
          CHAIN_CONFIG (fresh 0)).1 = Normal (strip <$> kept)
       /\ totalAudits stats = length kept
       /\ recentAudits stats = strip <$> take 5 kept
       /\ kept `sublist_of` reports
       /\ forall r, r ∈ kept <->
            r ∈ reports /\ toLowerCase (auditor r) = toLowerCase userAddress.
Proof.
  destruct (fetchSorted_pages world addresses userAddress CHAIN_CONFIG)
    as (reports & Hreports & Hview).
  destruct (fetchUserStats_run world addresses CHAIN_CONFIG userAddress)
    as [Hstats Hsorted].
  rewrite Hsorted in Hview. injection Hview as Hview.
  rewrite Hview in Hstats. unfold viewOf in Hview, Hstats.
  exists reports. eexists. split; [exact Hreports|]. split; [exact Hstats|].
  cbv zeta. rewrite Hsorted, Hview. simpl. split; [done|].
  split.
  { rewrite <- (length_fmap strip), <- Hview. by rewrite sort_perm. }
  split; [unfold slice; by rewrite fmap_take|].
  split; [apply sublist_filter|].
  intros r. rewrite list_elem_of_filter. unfold sameAddress.
  rewrite Is_true_true, String.eqb_eq. tauto.
Qed.

(** The chain of [otherChain] reports two audits, by ["0xA1"] and
    ["0xa2"]; the profile of ["0xa1"] keeps the first. *)
Lemma C8_witness :
  exists stats,
    (fetchUserStats mixedWorld sampleAddresses twoChains "0xa1").1 = Normal stats
    /\ totalAudits stats = 1.
Proof.
  destruct (C8_identity_filter mixedWorld sampleAddresses twoChains "0xa1")
    as (reports & stats & Hreports & Hstats & _ & Htotal & _).
  exists stats. split; [exact Hstats|].
  rewrite Htotal. vm_compute in Hreports. injection Hreports as <-.
  reflexivity.
Defined.

(** C9.  The retry loop of a chain always terminates, without throwing.
    It runs at most [maxRetries] rounds; the attempts of round [k] are
    numbered [k] and go through a prefix of the chain's endpoints in the
    order of the descriptor; no count query is waited for longer than
    10 000 ms and no bulk fetch longer than 20 000 ms; and the waits follow
    one another, the time the loop takes being their sum. *)
Theorem C9_retry_loop_bounded {R : Type} (env : FetchEnv R)
    (chainKey : string) (chainData : ChainConfig) (contractAddress : string)
    (s : State R) :
  exists success s' tr rounds,
    whileLoop chainKey chainData contractAddress 0 s = (Normal success, s')
    /\ trace s' = trace s ++ tr
    /\ length rounds <= maxRetries
    /\ attempts tr = roundAttempts 0 rounds
    /\ schedule tr = roundSchedule 0 rounds
    /\ Forall (fun tried => tried `prefix_of` rpcUrls chainData) rounds
    /\ Forall (fun d => (d <= 10000)%N) (awaits CountQuery tr)
    /\ Forall (fun d => (d <= 20000)%N) (awaits BulkFetch tr)
    /\ clock s' = (clock s + sumN (waits tr))%N.
Proof.
  destruct (whileLoop_run chainKey chainData contractAddress 0 s)
    as (success & s' & tr & rounds & Hrun & Htr & Hlen & _ & Hatt & Hsch & Hpre
        & _ & Hc & Hb & _).
  destruct (timed_whileLoop chainKey chainData contractAddress 0 s)
    as (tr' & Htr' & Hclock).
  rewrite Hrun in Htr', Hclock. simpl in *.
  rewrite Htr in Htr'. apply app_inv_head in Htr' as <-.
  by exists success, s', tr, rounds.
Qed.

(** C10.  A chain whose address is absent from the address table, the
    read [CONTRACT_ADDRESSES[chainKey]] giving [undefined], is skipped right
    after its name is printed: its iteration makes no attempt, waits for
    nothing and pushes nothing.  The rest of the run is what it would be
    without that chain in the table, the two skip messages aside. *)
Theorem C10_missing_address_skipped {R : Type} (env : FetchEnv R)
    (pre post : list (string * ChainConfig)) (chainKey : string)
    (chainData : ChainConfig) (s : State R) :
  getProperty CONTRACT_ADDRESSES chainKey = Undefined ->
  let skip := [LogFetchFrom chainKey; LogNoAddress chainKey] in
  let without := forChains (pre ++ post) s in
  let with_ := forChains (pre ++ (chainKey, chainData) :: post) s in
  forChain (chainKey, chainData) s
    = (Normal tt, mkState (allAudits s) (clock s) (trace s ++ skip))
  /\ (exists tr1 tr2,
        trace without.2 = trace s ++ tr1 ++ tr2
        /\ trace with_.2 = trace s ++ tr1 ++ skip ++ tr2)
  /\ allAudits with_.2 = allAudits without.2
  /\ clock with_.2 = clock without.2
  /\ (fetchSorted (pre ++ (chainKey, chainData) :: post) s).1
       = (fetchSorted (pre ++ post) s).1.
Proof.
  intros Hnone skip without with_.
  assert (Hskip : forall s1, forChain (chainKey, chainData) s1
            = (Normal tt, mkState (allAudits s1) (clock s1) (trace s1 ++ skip))).
  { intros s1. unfold forChain, mbind, M_bind, console. cbv zeta.
    rewrite Hnone. simpl. by rewrite <- app_assoc. }
  split; [apply Hskip|].
  rewrite !fetchSorted_of_forChains. subst without with_.
  rewrite !forChains_app_run.
  change (forChains ((chainKey, chainData) :: post) (forChains pre s).2) with
    ((forChain (chainKey, chainData) ;; forChains post) (forChains pre s).2).
  unfold mbind, M_bind. rewrite Hskip.
  set (s1 := (forChains pre s).2).
  rewrite (forChains_frame post s1), (forChains_frame post (mkState _ _ _)).
  simpl. set (s2 := (forChains post (fresh (clock s1))).2).
  split; [|done].
  exists (trace (forChains pre (fresh (clock s))).2), (trace s2).
  subst s1. rewrite (forChains_frame pre s). simpl.
  by rewrite <- !app_assoc.
Qed.

(** With [monadTestnet] absent from the address table, only the other
    chain is attempted. *)
Lemma C10_witness :
  let addrs : gmap string string := {[ "other" := "0xRegistry2" ]} in
  (fetchAllChainAudits shortStarsWorld addrs twoChains).1
  = (fetchAllChainAudits shortStarsWorld addrs [("other", otherChain)]).1.
Proof.
  intros addrs.
  exact (proj2 (proj2 (proj2 (proj2
    (C10_missing_address_skipped (reportsEnv shortStarsWorld addrs)
       [] [("other", otherChain)] "monadTestnet" monadTestnet (fresh 0)
       eq_refl))))).
Defined.

(** * Further properties *)

(** ** The filter panel *)

Lemma filter_weaken {A} (P Q : A -> Prop) `{!forall a, Decision (P a)}
    `{!forall a, Decision (Q a)} (l : list A) :
  (forall a, P a -> Q a) -> filter P l `sublist_of` filter Q l.
Proof.
  intros HPQ. induction l as [|x l IH]; [done|].
  rewrite !filter_cons. destruct (decide (P x)) as [HP|HP].
  - destruct (decide (Q x)) as [|HQ]; [by apply sublist_skip|].
    by destruct HQ; apply HPQ.
  - destruct (decide (Q x)); [by apply sublist_cons|done].
Qed.

Lemma toLowerCase_idemp s : toLowerCase (toLowerCase s) = toLowerCase s.
Proof.
  induction s as [|c s IH]; simpl; [done|]. rewrite IH. f_equal.
  destruct c as [[] [] [] [] [] [] [] []]; reflexivity.
Qed.

Lemma toLowerCase_empty s : toLowerCase s = "" <-> s = "".
Proof. by destruct s. Qed.

Lemma string_prefix_refl s : String.prefix s s = true.
Proof.
  induction s as [|c s IH]; simpl; [done|]. by destruct (ascii_dec c c).
Qed.

Lemma includes_refl s : includes s s = true.
Proof. destruct s; cbn [includes]; by rewrite string_prefix_refl. Qed.

(** What each of the four early returns of the callback tests. *)
Lemma passesFilters_spec nowMs filters r :
  passesFilters nowMs filters r = true <->
  (search filters = ""
   \/ includes (toLowerCase (contractHash r)) (toLowerCase (search filters))
      = true
   \/ includes (toLowerCase (auditor r)) (toLowerCase (search filters)) = true)
  /\ (filter_chain filters = "all" \/ chain r = filter_chain filters)
  /\ ((minStars filters <= 0)%Z \/ (minStars filters <= report_stars r)%Z)
  /\ (dateRange filters = RangeAll
      \/ (nowMs - 1000 * timestamp r
          <= 1000 * rangeSeconds (dateRange filters))%Z).
Proof.
  unfold passesFilters.
  destruct (String.eqb_spec (search filters) "") as [Hs|Hs];
    destruct (includes (toLowerCase (contractHash r)) _) eqn:Hh;
    destruct (includes (toLowerCase (auditor r)) _) eqn:Ha;
    destruct (String.eqb_spec (filter_chain filters) "all") as [Hc|Hc];
    destruct (String.eqb_spec (chain r) (filter_chain filters)) as [Hk|Hk];
    destruct (Z.ltb_spec 0 (minStars filters));
    destruct (Z.ltb_spec (report_stars r) (minStars filters));
    simpl;
    try (split; [discriminate|intros (? & ? & ? & ?)];
         repeat match goal with H : _ \/ _ |- _ => destruct H end;
         (congruence || lia));
    (destruct (dateRange filters) eqn:Hd; simpl;
     [ split; [intros _|done]; repeat split; auto; lia
     | rewrite negb_true_iff, Z.ltb_ge;
       split;
       [ intros ?; repeat split; auto; lia
       | intros (_ & _ & _ & [?|?]); [discriminate|lia] ] .. ]).
Qed.

(** X1.  The four tests of the panel combine as a conjunction: a report is
    shown exactly when it is one of the reports, the search text is empty
    or occurs in its hash or its auditor (letter case aside), the chain is
    ['all'] or its own, the star threshold is not positive or reached, and
    the date range is ['all'] or its age is within the range. *)
Theorem getFilteredReports_conjunctive (nowMs : Z) (filters : FilterState)
    (reports : list AuditReport) (r : AuditReport) :
  r ∈ getFilteredReports nowMs filters reports <->
  r ∈ reports
  /\ (search filters = ""
      \/ includes (toLowerCase (contractHash r)) (toLowerCase (search filters))
         = true
      \/ includes (toLowerCase (auditor r)) (toLowerCase (search filters))
         = true)
  /\ (filter_chain filters = "all" \/ chain r = filter_chain filters)
  /\ ((minStars filters <= 0)%Z \/ (minStars filters <= report_stars r)%Z)
  /\ (dateRange filters = RangeAll
      \/ (nowMs - 1000 * timestamp r
          <= 1000 * rangeSeconds (dateRange filters))%Z).
Proof.
  unfold getFilteredReports. rewrite list_elem_of_filter, Is_true_true.
  rewrite passesFilters_spec. tauto.
Qed.

(** X2.  With the panel in its initial state every report is shown, in
    the order fetched. *)
Theorem getFilteredReports_initial (nowMs : Z) (reports : list AuditReport) :
  getFilteredReports nowMs initialFilters reports = reports.
Proof.
  unfold getFilteredReports. induction reports as [|r l IH]; [done|].
  rewrite filter_cons. by rewrite IH.
Qed.

(** X3.  The search ignores the letter case of the text typed: two texts
    that differ in case only show the same reports. *)
Theorem getFilteredReports_search_case (nowMs : Z) (q q' c : string)
    (d : DateRange) (m : Z) (reports : list AuditReport) :
  toLowerCase q = toLowerCase q' ->
  getFilteredReports nowMs (mkFilters q c d m) reports
  = getFilteredReports nowMs (mkFilters q' c d m) reports.
Proof.
  intros Hq. unfold getFilteredReports. apply list_filter_iff. intros r.
  rewrite !Is_true_true, !passesFilters_spec. simpl. rewrite Hq.
  assert (q = "" <-> q' = "") as ->; [|done].
  by rewrite <- (toLowerCase_empty q), <- (toLowerCase_empty q'), Hq.
Qed.

Lemma getFilteredReports_search_case_witness :
  getFilteredReports 0 (mkFilters "0XA1" "all" RangeAll 0)
    [mkAuditReport "0xh1" 5 "ok" "0xA1" 10 "other"]
  = getFilteredReports 0 (mkFilters "0xa1" "all" RangeAll 0)
      [mkAuditReport "0xh1" 5 "ok" "0xA1" 10 "other"].
Proof.
  apply getFilteredReports_search_case. reflexivity.
Defined.

(** X4.  Widening the time range never hides a report: what the last day
    shows the last week shows, what the week shows the month shows, and
    what the month shows ['all'] shows, each in the same order. *)
Theorem getFilteredReports_ranges_nested (nowMs : Z) (q c : string) (m : Z)
    (reports : list AuditReport) :
  let shown d := getFilteredReports nowMs (mkFilters q c d m) reports in
  shown RangeDay `sublist_of` shown RangeWeek
  /\ shown RangeWeek `sublist_of` shown RangeMonth
  /\ shown RangeMonth `sublist_of` shown RangeAll.
Proof.
  intros shown. subst shown. unfold getFilteredReports.
  repeat split; apply filter_weaken; intros r;
    rewrite !Is_true_true, !passesFilters_spec; simpl;
    intros (? & ? & ? & [?|?]); repeat split; auto; try discriminate;
    right; lia.
Qed.

(** X5.  Raising the star threshold only removes reports, and a threshold
    of zero or less hides none on account of stars. *)
Theorem getFilteredReports_minStars_monotone (nowMs : Z) (q c : string)
    (d : DateRange) (m m' : Z) (reports : list AuditReport) :
  (m <= m')%Z ->
  getFilteredReports nowMs (mkFilters q c d m') reports
    `sublist_of` getFilteredReports nowMs (mkFilters q c d m) reports.
Proof.
  intros Hm. unfold getFilteredReports. apply filter_weaken. intros r.
  rewrite !Is_true_true, !passesFilters_spec. simpl.
  intros (? & ? & [?|?] & ?); repeat split; auto; lia.
Qed.

Lemma getFilteredReports_minStars_monotone_witness :
  getFilteredReports 0 (mkFilters "" "all" RangeAll 5)
    [mkAuditReport "0xh1" 5 "ok" "0xA1" 10 "other";
     mkAuditReport "0xh2" 4 "" "0xa2" 20 "other"]
  `sublist_of`
  getFilteredReports 0 (mkFilters "" "all" RangeAll 4)
    [mkAuditReport "0xh1" 5 "ok" "0xA1" 10 "other";
     mkAuditReport "0xh2" 4 "" "0xa2" 20 "other"].
Proof.
  apply getFilteredReports_minStars_monotone. lia.
Defined.

(** X6.  Typing an address into the search box shows at least the reports
    the profile page of that address counts: every report whose auditor
    equals the address up to letter case is shown, in order. *)
Theorem getFilteredReports_covers_profile (nowMs : Z) (userAddress : string)
    (reports : list AuditReport) :
  filter (fun r => sameAddress userAddress (auditor r)) reports
    `sublist_of`
  getFilteredReports nowMs (mkFilters userAddress "all" RangeAll 0) reports.
Proof.
  unfold getFilteredReports. apply filter_weaken. intros r.
  rewrite !Is_true_true, passesFilters_spec. simpl.
  unfold sameAddress. rewrite String.eqb_eq. intros ->.
  repeat split; auto; [|lia]. right. right. apply includes_refl.
Qed.

(** ** The fetch loop, further *)

(** X7.  The retry loop stops at the first attempt that does not throw.
    If the loop has reached a round in which the attempts on the endpoints
    before [rpcUrl] failed and the attempt on [rpcUrl] completes, the loop
    ends with [success] true in the state that attempt ends in: every
    earlier attempt has pushed nothing, and no later endpoint or round is
    tried. *)
Theorem whileLoop_first_success {R : Type} (env : FetchEnv R)
    (chainKey : string) (chainData : ChainConfig) (contractAddress : string)
    (s0 s s1 s2 : State R) (retryCount : nat) (pre : list string)
    (rpcUrl : string) (rest : list string) :
  roundStarts chainKey chainData contractAddress s0 retryCount s ->
  retryCount < maxRetries ->
  rpcUrls chainData = pre ++ rpcUrl :: rest ->
  forRpcUrls chainKey contractAddress retryCount pre s = (Normal false, s1) ->
  tryBody chainKey contractAddress rpcUrl retryCount s1 = (Normal tt, s2) ->
  whileLoop chainKey chainData contractAddress 0 s0 = (Normal true, s2)
  /\ allAudits s1 = allAudits s0.
Proof.
  intros Hstart Hlt Hurls Hpre Htry.
  destruct (roundStarts_loop _ _ _ _ _ _ Hstart) as [-> Ha]. split.
  - apply whileLoop_round_success; [done|]. rewrite Hurls.
    by eapply forRpcUrls_first_success.
  - destruct (forRpcUrls_run chainKey contractAddress retryCount pre s)
      as (success & s1' & tr & tried & Hrun & _ & _ & _ & _ & Hfail & _).
    rewrite Hpre in Hrun. injection Hrun as <- <-.
    destruct (Hfail eq_refl) as [_ ->]. done.
Qed.

(** With the first endpoint hanging and the second one answering, the
    first round succeeds on the second endpoint. *)
Lemma whileLoop_first_success_witness :
  exists s2,
    whileLoop (env := reportsEnv failoverWorld sampleAddresses)
      "monadTestnet" monadTestnet "0xRegistry1" 0 (fresh 0) = (Normal true, s2)
    /\ length (allAudits s2) = 2
    /\ awaits Backoff (trace s2) = [].
Proof.
  pose (env := reportsEnv failoverWorld sampleAddresses).
  pose (u1 :=
    "https://monad-testnet.g.alchemy.com/v2/cPagatQQ9SL_dZvqKBJYoc_dG2cHbmcA").
  pose (s1 := (forRpcUrls (env := env) "monadTestnet" "0xRegistry1" 0 [u1]
                 (fresh 0)).2).
  pose (s2 := (tryBody (env := env) "monadTestnet" "0xRegistry1"
                 "https://testnet-rpc.monad.xyz" 0 s1).2).
  exists s2.
  split; [|split; reflexivity].
  refine (proj1 (whileLoop_first_success env "monadTestnet" monadTestnet
            "0xRegistry1" (fresh 0) (fresh 0) s1 s2 0 [u1]
            "https://testnet-rpc.monad.xyz" []
            (round_first _ _ _ _) _ eq_refl eq_refl eq_refl)).
  unfold maxRetries. lia.
Defined.

(** X8.  A chain configured with no endpoint at all still goes through
    the three rounds: nothing is attempted and nothing pushed, but the two
    backoff waits are served, 12 000 ms in all, before the chain is given
    up. *)
Theorem whileLoop_no_endpoints {R : Type} (env : FetchEnv R)
    (chainKey : string) (chainData : ChainConfig) (contractAddress : string)
    (s : State R) :
  rpcUrls chainData = [] ->
  whileLoop chainKey chainData contractAddress 0 s =
    (Normal false,
     mkState (allAudits s) (clock s + 12000)
       (trace s ++ [LogRetrying chainKey 4000; Awaited Backoff 4000;
                    LogRetrying chainKey 8000; Awaited Backoff 8000])).
Proof.
  intros Hurls.
  do 4 (rewrite whileLoop_step, ?Hurls; simpl;
        unfold mbind, M_bind, mret, M_ret, console, await; simpl).
  rewrite <- !app_assoc. simpl.
  change (baseDelay * 2 ^ N.of_nat 1)%N with 4000%N.
  change (baseDelay * 2 ^ N.of_nat 2)%N with 8000%N.
  f_equal. f_equal. lia.
Qed.

Lemma whileLoop_no_endpoints_witness :
  clock (whileLoop (env := reportsEnv deadWorld sampleAddresses) "none"
           noEndpoints "0xRegistry" 0 (fresh 0)).2 = 12000%N.
Proof.
  rewrite (whileLoop_no_endpoints (reportsEnv deadWorld sampleAddresses)
             "none" noEndpoints "0xRegistry" (fresh 0) eq_refl).
  reflexivity.
Defined.

(** ** The profile statistics *)

Lemma forChains_pages world addresses userAddress entries :
  allAudits (forChains (env := profileEnv world addresses userAddress) entries
               (fresh 0)).2
  = viewOf userAddress
      (allAudits (forChains (env := reportsEnv world addresses) entries
                    (fresh 0)).2).
Proof.
  by destruct (sim_forChains world addresses userAddress entries (fresh 0)
                 (fresh 0)) as (_ & Hview & _).
Qed.

Lemma fetchUserStats_of_sorted world addresses entries userAddress audits :
  (fetchSorted (env := profileEnv world addresses userAddress) entries
     (fresh 0)).1 = Normal audits ->
  exists pushed,
    pushed ≡ₚ audits
    /\ (fetchUserStats world addresses entries userAddress).1 =
         Normal (mkStats (length pushed)
                   (foldl (fun totalStars a => Number (totalStars + ua_stars a))
                      0%Z pushed)
                   (foldl (fun chainCounts a => bump chainCounts (ua_chain a))
                      ∅ pushed)
                   (slice 0 5 audits)).
Proof.
  destruct (fetchUserStats_run world addresses entries userAddress)
    as [Hstats Hsorted].
  rewrite Hsorted. intros [= <-]. eexists. split; [|exact Hstats].
  symmetry. apply sort_perm.
Qed.

Lemma profile_sorted world addresses entries userAddress :
  exists audits,
    (fetchSorted (env := profileEnv world addresses userAddress) entries
       (fresh 0)).1 = Normal audits
    /\ StronglySorted (descBy ua_timestamp) audits.
Proof.
  rewrite fetchSorted_of_forChains. eexists. split; [done|].
  by apply (sort_sorted _ ua_timestamp).
Qed.

Lemma StronglySorted_app_below {A} (R : A -> A -> Prop) l1 l2 :
  StronglySorted R (l1 ++ l2) -> Forall (fun a => Forall (R a) l2) l1.
Proof.
  induction l1 as [|x l1 IH]; simpl; [done|].
  intros [Hs Hx%Forall_app]%StronglySorted_inv. constructor; [tauto|by apply IH].
Qed.

(** X9.  The "recent audits" of a profile are the first five of its audits
    in descending order of timestamp, or all of them when there are fewer:
    no audit left out is more recent than one shown. *)
Theorem fetchUserStats_recent_window (world : World)
    (addresses : gmap string string) (CHAIN_CONFIG : list (string * ChainConfig))
    (userAddress : string) :
  exists stats audits,
    (fetchUserStats world addresses CHAIN_CONFIG userAddress).1 = Normal stats
    /\ (fetchSorted (env := profileEnv world addresses userAddress)
          CHAIN_CONFIG (fresh 0)).1 = Normal audits
    /\ totalAudits stats = length audits
    /\ audits = recentAudits stats ++ drop 5 audits
    /\ length (recentAudits stats) = 5 `min` totalAudits stats
    /\ Sorted (descBy ua_timestamp) (recentAudits stats)
    /\ Forall (fun shown =>
                 Forall (fun left_out =>
                           (ua_timestamp left_out <= ua_timestamp shown)%Z)
                   (drop 5 audits))
         (recentAudits stats).
Proof.
  destruct (profile_sorted world addresses CHAIN_CONFIG userAddress)
    as (audits & Hrun & Hsorted).
  destruct (fetchUserStats_of_sorted _ _ _ _ _ Hrun)
    as (pushed & Hperm & Hstats).
  eexists. exists audits.
  split; [exact Hstats|]. split; [done|]. simpl.
  split; [by rewrite Hperm|]. unfold slice. rewrite drop_0.
  split; [by rewrite take_drop|].
  split; [by rewrite length_take, Hperm|].
  rewrite <- (take_drop 5 audits) in Hsorted. split.
  - apply StronglySorted_Sorted. by apply StronglySorted_app_1_l in Hsorted.
  - by apply StronglySorted_app_below in Hsorted.
Qed.

(** X10.  The profile does not depend on the letter case in which the
    wallet address is given. *)
Theorem fetchUserStats_address_case (world : World)
    (addresses : gmap string string) (CHAIN_CONFIG : list (string * ChainConfig))
    (userAddress userAddress' : string) :
  toLowerCase userAddress = toLowerCase userAddress' ->
  (fetchUserStats world addresses CHAIN_CONFIG userAddress).1
  = (fetchUserStats world addresses CHAIN_CONFIG userAddress').1.
Proof.
  intros Hcase.
  destruct (fetchUserStats_run world addresses CHAIN_CONFIG userAddress)
    as [-> _].
  destruct (fetchUserStats_run world addresses CHAIN_CONFIG userAddress')
    as [-> _].
  rewrite !forChains_pages.
  assert (viewOf userAddress' = viewOf userAddress) as ->; [|done].
  apply functional_extensionality. intros reports.
  unfold viewOf. f_equal. apply list_filter_iff. intros r.
  unfold sameAddress. by rewrite Hcase.
Qed.

Lemma fetchUserStats_address_case_witness :
  (fetchUserStats mixedWorld sampleAddresses twoChains "0xA2").1
  = (fetchUserStats mixedWorld sampleAddresses twoChains "0XA2").1.
Proof.
  apply fetchUserStats_address_case. reflexivity.
Defined.

Lemma bump_lookup chainCounts chainKey n :
  chainCounts !! chainKey = chainCountAfter chainKey n ->
  bump chainCounts chainKey !! chainKey = chainCountAfter chainKey (S n).
Proof.
  unfold bump, getProperty. intros H. rewrite H. unfold chainCountAfter in *.
  destruct n as [|n].
  - destruct (bool_decide (chainKey ∈ objectPrototypeNames)).
    + destruct (String.eqb chainKey "__proto__"); [done|].
      by rewrite lookup_insert_eq.
    + by rewrite lookup_insert_eq.
  - destruct (bool_decide (chainKey ∈ objectPrototypeNames)).
    + destruct (String.eqb chainKey "__proto__"); [done|].
      rewrite lookup_insert_eq. do 2 f_equal. lia.
    + rewrite lookup_insert_eq. do 2 f_equal. lia.
Qed.

Lemma bump_lookup_ne chainCounts chainKey chainKey' :
  chainKey <> chainKey' ->
  bump chainCounts chainKey !! chainKey' = chainCounts !! chainKey'.
Proof.
  intros Hne. unfold bump.
  destruct (getProperty chainCounts chainKey) as [[n|name ones]| |];
    rewrite ?lookup_insert_ne; try done.
  destruct (String.eqb chainKey "__proto__"); [done|].
  by rewrite lookup_insert_ne.
Qed.

Lemma chainCounts_lookup (pushed : list UserAudit) (chainKey : string) :
  foldl (fun chainCounts a => bump chainCounts (ua_chain a)) ∅ pushed
    !! chainKey
  = chainCountAfter chainKey
      (length (filter (fun a => ua_chain a = chainKey) pushed)).
Proof.
  induction pushed as [|a l IH] using rev_ind; [done|].
  rewrite foldl_snoc, filter_app, length_app, filter_cons, filter_nil.
  destruct (decide (ua_chain a = chainKey)) as [->|Hne]; simpl.
  - rewrite Nat.add_1_r. by apply bump_lookup.
  - rewrite Nat.add_0_r, bump_lookup_ne; done.
Qed.

Lemma sum_Permutation (l l' : list UserAudit) :
  l ≡ₚ l' ->
  foldr Z.add 0%Z (ua_stars <$> l) = foldr Z.add 0%Z (ua_stars <$> l').
Proof.
  induction 1 as [|x l l' _ IH|x y l|l l' l'' _ IH1 _ IH2];
    rewrite ?fmap_cons; cbn [foldr]; [done|by rewrite IH|lia|by rewrite IH1].
Qed.

Lemma totalStars_exact (pushed : list UserAudit) :
  Forall (fun a => (0 <= ua_stars a)%Z) pushed ->
  (foldr Z.add 0 (ua_stars <$> pushed) < 2 ^ 53)%Z ->
  foldl (fun totalStars a => Number (totalStars + ua_stars a)) 0%Z pushed
  = foldr Z.add 0%Z (ua_stars <$> pushed).
Proof.
  induction pushed as [|a l IH] using rev_ind; [done|].
  rewrite Forall_app, Forall_singleton. intros [Hl Ha]. cbv beta in Ha.
  rewrite fmap_app, foldr_app. cbn [fmap list_fmap foldr]. rewrite Z.add_0_r.
  assert (Hsum : forall (k : Z) (zs : list Z),
            foldr Z.add k zs = (k + foldr Z.add 0 zs)%Z).
  { intros k zs. induction zs as [|z zs IHz]; simpl; lia. }
  assert (Hpos : (0 <= foldr Z.add 0 (ua_stars <$> l))%Z).
  { clear IH. induction Hl as [|b l Hb _ IHl]; [done|].
    rewrite fmap_cons. cbn [foldr]. lia. }
  rewrite Hsum. intros Hlt. rewrite foldl_snoc.
  rewrite IH; [|done|lia].
  unfold Number.
  destruct (Z.ltb_spec (Z.abs (foldr Z.add 0%Z (ua_stars <$> l) + ua_stars a))
              (2 ^ 53)%Z); lia.
Qed.

(** X11.  The chain breakdown of a profile holds, under each chain key,
    what the bumps of that key have left: nothing for a chain with no
    audit of the user, the number of the user's audits for an ordinary
    key, and for a key that [Object.prototype] defines the text of the
    inherited value followed by one 1 per audit (nothing at all under
    [__proto__]).  The star total adds doubles; it is the exact sum of the
    stars whenever these are not negative and their sum is below 2^53. *)
Theorem fetchUserStats_chainBreakdown (world : World)
    (addresses : gmap string string) (CHAIN_CONFIG : list (string * ChainConfig))
    (userAddress : string) :
  exists stats audits,
    (fetchUserStats world addresses CHAIN_CONFIG userAddress).1 = Normal stats
    /\ (fetchSorted (env := profileEnv world addresses userAddress)
          CHAIN_CONFIG (fresh 0)).1 = Normal audits
    /\ (forall chainKey,
          chainBreakdown stats !! chainKey =
            chainCountAfter chainKey
              (length (filter (fun a => ua_chain a = chainKey) audits)))
    /\ (Forall (fun a => (0 <= ua_stars a)%Z) audits ->
        (foldr Z.add 0 (ua_stars <$> audits) < 2 ^ 53)%Z ->
        totalStars stats = foldr Z.add 0%Z (ua_stars <$> audits)).
Proof.
  destruct (profile_sorted world addresses CHAIN_CONFIG userAddress)
    as (audits & Hrun & _).
  destruct (fetchUserStats_of_sorted _ _ _ _ _ Hrun)
    as (pushed & Hperm & Hstats).
  eexists. exists audits. split; [exact Hstats|]. split; [done|]. simpl.
  split.
  - intros chainKey. rewrite chainCounts_lookup. by rewrite Hperm.
  - intros Hpos Hlt. rewrite <- (sum_Permutation _ _ Hperm).
    apply totalStars_exact; [by rewrite Hperm|].
    by rewrite (sum_Permutation _ _ Hperm).
Qed.

(** On the sample network the profile of ["0xA2"] has one audit, on
    [other], with 4 stars. *)
Lemma fetchUserStats_chainBreakdown_witness :
  exists stats,
    (fetchUserStats mixedWorld sampleAddresses twoChains "0xA2").1
      = Normal stats
    /\ chainBreakdown stats !! "other" = Some (Count 1)
    /\ chainBreakdown stats !! "monadTestnet" = None
    /\ totalStars stats = 4%Z.
Proof.
  destruct (fetchUserStats_chainBreakdown mixedWorld sampleAddresses twoChains
              "0xA2") as (stats & audits & Hstats & Haudits & Hcounts & Hstars).
  exists stats. split; [exact Hstats|].
  vm_compute in Haudits. injection Haudits as <-.
  split; [by rewrite Hcounts|]. split; [by rewrite Hcounts|].
  rewrite Hstars; [reflexivity | by repeat constructor | reflexivity].
Defined.

(** ** Calls and time of the retry loop *)

Lemma afterTrace_app phase tr1 tr2 :
  afterTrace phase (tr1 ++ tr2) =
    match afterTrace phase tr1 with
    | Some phase' => afterTrace phase' tr2
    | None => None
    end.
Proof.
  revert phase. induction tr1 as [|e tr1 IH]; intros phase; simpl; [done|].
  by destruct (afterEvent phase e).
Qed.

Lemma afterTrace_pauses phase n :
  afterTrace phase (replicate n (Awaited BatchPause 10)) = Some phase.
Proof. induction n as [|n IH]; [done|]. exact IH. Qed.









Section Calls.
Context {R : Type} {env : FetchEnv R}.

(** One attempt: it announces itself, makes the count query before any
    bulk fetch and each at most once, and, when it throws, has spent at
    most 30 000 ms. *)
Lemma tryBody_shape chainKey contractAddress rpcUrl retryCount s :
  let r := tryBody chainKey contractAddress rpcUrl retryCount s in
  exists tr,
    trace r.2 = trace s ++ tr
    /\ orderly tr
    /\ (forall e, r.1 = Throw e -> (clock r.2 <= clock s + 30000)%N).
Proof.
  unfold tryBody, await_race, mbind, M_bind, console, currentTime, lift,
    await, throw; simpl.
  destruct (newContract rpcUrl contractAddress (clock s)) as [contract|e0]; simpl.
  2:{ eexists. split; [done|]. split; [by intros phase; eexists|].
      intros; lia. }
  pose proof (race_timeout_le (getTotalContracts contract (clock s)) 10000
                "getTotalContracts timeout") as Hle1.
  destruct (race_timeout (getTotalContracts contract (clock s)) _ _)
    as [d1 [n|e1]]; simpl in *.
  2:{ eexists. rewrite <- !app_assoc. split; [done|].
      split; [by intros phase; eexists|]. intros; lia. }
  destruct (Number n =? 0)%Z; simpl.
  { eexists. rewrite <- !app_assoc. split; [done|].
    split; [by intros phase; eexists|]. done. }
  match goal with
  | |- context [race_timeout ?p ?t ?m] =>
      pose proof (race_timeout_le p t m) as Hle2;
      destruct (race_timeout p t m) as [d2 [result|e2]]; simpl in *
  end.
  2:{ eexists. rewrite <- !app_assoc. split; [done|].
      split; [by intros phase; eexists|]. intros; lia. }
  destruct result as [res|]; simpl.
  2:{ eexists. rewrite <- !app_assoc. split; [done|].
      split; [by intros phase; eexists|]. intros; lia. }
  destruct (contractHashes res) as [hashes|]; simpl.
  2:{ eexists. rewrite <- !app_assoc. split; [done|].
      split; [by intros phase; eexists|]. intros; lia. }
  rewrite forBatches_spec.
  destruct (decide (0 < length hashes)); simpl.
  - destruct (pushGuard res 0); simpl.
    + eexists. rewrite <- !app_assoc. split; [done|]. split; [|done].
      intros phase. cbn [app afterTrace afterEvent].
      rewrite afterTrace_app, afterTrace_pauses. by eexists.
    + eexists. rewrite <- !app_assoc. split; [done|].
      split; [by intros phase; eexists|]. intros; lia.
  - eexists. rewrite <- !app_assoc. split; [done|].
    split; [by intros phase; eexists|]. done.
Qed.





Lemma roundAttempts_length urls retryCount rounds :
  Forall (fun tried => tried `prefix_of` urls) rounds ->
  length (roundAttempts retryCount rounds) <= length rounds * length urls.
Proof.
  intros Hp. revert retryCount.
  induction Hp as [|tried rest Htried _ IH]; intros retryCount; simpl; [lia|].
  rewrite length_app, length_map. specialize (IH (S retryCount)).
  apply prefix_length in Htried. lia.
Qed.

(** A round that fails has spent at most 30 000 ms on each endpoint. *)
Lemma forRpcUrls_fail_clock chainKey contractAddress retryCount urls s s' :
  forRpcUrls chainKey contractAddress retryCount urls s = (Normal false, s') ->
  (clock s' <= clock s + 30000 * N.of_nat (length urls))%N.
Proof.
  revert s. induction urls as [|rpcUrl rest IH]; intros s; simpl.
  { intros [= <-]. lia. }
  unfold mbind at 1, M_bind at 1, try_catch. unfold mbind at 1, M_bind at 1.
  destruct (tryBody_shape chainKey contractAddress rpcUrl retryCount s)
    as (tr & _ & _ & Hclock).
  destruct (tryBody chainKey contractAddress rpcUrl retryCount s)
    as [[[]|e] s0]; simpl in *; [done|].
  specialize (Hclock e eq_refl).
  unfold mbind at 1, M_bind at 1.
  assert (Hc : exists s1, catchClause chainKey rpcUrl e s0 = (Normal tt, s1)
                          /\ clock s1 = clock s0).
  { unfold catchClause. destruct (isRpcError e); by eexists. }
  destruct Hc as (s1 & -> & Hs1). simpl.
  intros Hrest. apply IH in Hrest. lia.
Qed.

Lemma whileLoop_giveup_clock chainKey chainData contractAddress retryCount
    s s' :
  retryCount < maxRetries ->
  whileLoop chainKey chainData contractAddress retryCount s
    = (Normal false, s') ->
  (clock s' + baseDelay * 2 ^ N.of_nat (S retryCount)
   <= clock s
      + N.of_nat (maxRetries - retryCount)
        * (30000 * N.of_nat (length (rpcUrls chainData)))
      + baseDelay * 2 ^ N.of_nat maxRetries)%N.
Proof.
  remember (maxRetries - retryCount) as n eqn:Hn.
  revert retryCount s Hn. induction n as [|n IH]; intros retryCount s Hn Hlt;
    [lia|].
  rewrite whileLoop_step.
  destruct (decide (retryCount < maxRetries)); [|lia].
  unfold mbind at 1, M_bind at 1.
  destruct (forRpcUrls chainKey contractAddress retryCount
              (rpcUrls chainData) s) as [[[]|e] s1] eqn:Hround; [done| |done].
  apply forRpcUrls_fail_clock in Hround.
  unfold mbind at 1, M_bind at 1.
  destruct (decide (S retryCount < maxRetries)) as [Hnext|Hlast].
  - unfold mbind at 1, M_bind at 1, console at 1, await at 1.
    intros Hrest. apply IH in Hrest; [|lia|done]. simpl clock in Hrest.
    rewrite (Nat2N.inj_succ (S retryCount)), N.pow_succ_r' in Hrest.
    rewrite (Nat2N.inj_succ n). lia.
  - unfold mret at 1, M_ret at 1. rewrite whileLoop_step.
    destruct (decide (S retryCount < maxRetries)); [lia|].
    intros [= <-]. assert (S retryCount = maxRetries) as -> by lia.
    rewrite (Nat2N.inj_succ n). lia.
Qed.
End Calls.


(** The order of the calls is a real constraint: a bulk fetch before the
    count query, a second count query, or a call before any attempt is
    out of order. *)
Example afterTrace_rejects :
  afterTrace Idle [LogAttemptRpc "u" 1 3; Awaited BulkFetch 7;
                   Awaited CountQuery 5] = None
  /\ afterTrace Idle [LogAttemptRpc "u" 1 3; Awaited CountQuery 5;
                      Awaited CountQuery 5] = None
  /\ afterTrace Idle [Awaited BulkFetch 7; Awaited CountQuery 5;
                      LogAttemptRpc "u" 1 3] = None
  /\ afterTrace Idle [LogAttemptRpc "u" 1 3; Awaited CountQuery 5;
                      LogTotal "c" 2; Awaited BulkFetch 7;
                      Awaited BatchPause 10; LogProcessed 2 "c"]
     = Some Fetched.
Proof. repeat split; reflexivity. Qed.

(** X13.  [fetchAllChainAudits], the [while] loop over one chain: when the
    loop gives up on a chain, it has spent at most 3 x 30 000 ms per
    endpoint (the two timeouts of an attempt) and 4 000 + 8 000 ms of
    backoff. *)
Theorem whileLoop_giveup_time {R} {env : FetchEnv R} chainKey chainData
    contractAddress s s' :
  whileLoop chainKey chainData contractAddress 0 s = (Normal false, s') ->
  (clock s' <= clock s + 90000 * N.of_nat (length (rpcUrls chainData))
               + 12000)%N.
Proof.
  intros Hrun. apply whileLoop_giveup_clock in Hrun; [|unfold maxRetries; lia].
  change (baseDelay * 2 ^ N.of_nat 1)%N with 4000%N in Hrun.
  change (baseDelay * 2 ^ N.of_nat maxRetries)%N with 16000%N in Hrun.
  change (N.of_nat (maxRetries - 0)) with 3%N in Hrun. lia.
Qed.

Lemma whileLoop_giveup_time_witness :
  exists s',
    whileLoop (env := reportsEnv deadWorld sampleAddresses)
      "monadTestnet" monadTestnet "0xAudit" 0 (fresh 0) = (Normal false, s')
    /\ (clock s' <= 192000)%N.
Proof.
  eexists. split; [by vm_compute|].
  apply (whileLoop_giveup_time (env := reportsEnv deadWorld sampleAddresses)
           "monadTestnet" monadTestnet "0xAudit" (fresh 0)).
  by vm_compute.
Defined.

(** ** When a chain is attempted *)

Section Attempted.
Context {R : Type} {env : FetchEnv R}.

Lemma framed_trace {A} (c : M R A) s :
  framed c -> exists tr, trace (c s).2 = trace s ++ tr.
Proof. intros Hc. rewrite (Hc s). simpl. by eexists. Qed.

Lemma forRpcUrls_attempted chainKey contractAddress retryCount rpcUrl rest s :
  exists tr,
    trace (forRpcUrls chainKey contractAddress retryCount (rpcUrl :: rest) s).2
    = trace s ++ LogAttemptRpc rpcUrl (retryCount + 1) maxRetries :: tr.
Proof.
  simpl. unfold mbind at 1, M_bind at 1, try_catch.
  unfold mbind at 1, M_bind at 1.
  destruct (tryBody_run chainKey contractAddress rpcUrl retryCount s)
    as (tr0 & Htr0 & _).
  destruct (tryBody chainKey contractAddress rpcUrl retryCount s)
    as [[[]|e] s0]; simpl in *; [by exists tr0|].
  unfold mbind at 1, M_bind at 1.
  assert (Hc : exists ev, catchClause chainKey rpcUrl e s0
                 = (Normal tt, mkState (allAudits s0) (clock s0)
                                 (trace s0 ++ [ev]))).
  { unfold catchClause. destruct (isRpcError e); by eexists. }
  destruct Hc as (ev & ->). simpl.
  match goal with
  | |- context [forRpcUrls ?k ?a ?rc ?l ?st] =>
      destruct (framed_trace (forRpcUrls k a rc l) st) as [tr1 ->];
        [apply framed_forRpcUrls|]
  end.
  simpl. rewrite Htr0, <- !app_assoc. simpl. by eexists.
Qed.

Lemma whileLoop_attempted chainKey chainData contractAddress rpcUrl rest s :
  rpcUrls chainData = rpcUrl :: rest ->
  exists tr,
    trace (whileLoop chainKey chainData contractAddress 0 s).2
    = trace s ++ LogAttemptRpc rpcUrl 1 maxRetries :: tr.
Proof.
  intros Hurls. rewrite whileLoop_step.
  destruct (decide (0 < maxRetries)) as [_|Hn]; [|unfold maxRetries in Hn; lia].
  unfold mbind at 1, M_bind at 1. rewrite Hurls.
  destruct (forRpcUrls_attempted chainKey contractAddress 0 rpcUrl rest s)
    as [tr0 Htr0].
  destruct (forRpcUrls chainKey contractAddress 0 (rpcUrl :: rest) s)
    as [[[]|e] s1]; simpl in Htr0; try by exists tr0.
  match goal with
  | |- context [(?c ≫= ?k) s1] =>
      destruct (framed_trace (c ≫= k) s1) as [tr1 ->]
  end.
  - apply framed_bind; [|intros _; apply framed_whileLoop].
    destruct (decide (1 < maxRetries)); [|apply framed_ret].
    apply framed_bind; [apply framed_console|intros _; apply framed_await].
  - rewrite Htr0, <- app_assoc. simpl. by eexists.
Qed.
End Attempted.

(** X14.  [fetchAllChainAudits], one iteration of the chain loop: after
    printing the chain's name the iteration makes an attempt exactly when
    the read [CONTRACT_ADDRESSES[chainKey]] is truthy, a non-empty string
    or a value inherited from [Object.prototype], and the chain has an
    endpoint; its first attempt is then attempt 1 on the chain's first
    endpoint.  An empty address is skipped like an undefined one. *)
Theorem forChain_first_attempt {R : Type} (env : FetchEnv R)
    (chainKey : string) (chainData : ChainConfig) (s : State R) :
  exists tr,
    trace (forChain (chainKey, chainData) s).2
      = trace s ++ LogFetchFrom chainKey :: tr
    /\ head (attempts tr) =
         let first := (fun rpcUrl => (rpcUrl, 1)) <$> head (rpcUrls chainData) in
         match getProperty CONTRACT_ADDRESSES chainKey with
         | Own contractAddress =>
             if String.eqb contractAddress "" then None else first
         | Inherited => first
         | Undefined => None
         end.
Proof.
  unfold forChain. unfold mbind at 1, M_bind at 1, console at 1. cbv zeta.
  assert (Hloop : forall contractAddress,
    let s1 :=
      mkState (allAudits s) (clock s) (trace s ++ [LogFetchFrom chainKey]) in
    exists tr,
      trace ((success ← whileLoop chainKey chainData contractAddress 0;
              if success : bool then mret tt
              else console (ErrorFailed chainKey maxRetries)) s1).2
        = trace s ++ LogFetchFrom chainKey :: tr
      /\ head (attempts tr)
         = (fun rpcUrl => (rpcUrl, 1)) <$> head (rpcUrls chainData)).
  { intros contractAddress s1. unfold mbind at 1, M_bind at 1.
    destruct (rpcUrls chainData) as [|rpcUrl rest] eqn:Hurls.
    - destruct (whileLoop_run chainKey chainData contractAddress 0 s1)
        as (success & s' & tr & rounds & Hrun & Htr & _ & _ & Hatt & _
            & Hprefix & _).
      rewrite Hrun. rewrite Hurls in Hprefix.
      pose proof (roundAttempts_length [] 0 rounds Hprefix) as Hlen.
      rewrite <- Hatt, Nat.mul_0_r in Hlen.
      assert (Hnone : attempts tr = []) by (apply length_zero_iff_nil; lia).
      destruct success; simpl; rewrite ?Htr; simpl; rewrite <- !app_assoc;
        simpl; eexists; (split; [done|]); by rewrite ?attempts_app, Hnone.
    - destruct (whileLoop_attempted chainKey chainData contractAddress rpcUrl
                  rest s1 Hurls) as [tr Htr].
      destruct (whileLoop chainKey chainData contractAddress 0 s1)
        as [[[]|e] s']; simpl in *; rewrite ?Htr; simpl;
        rewrite <- !app_assoc; simpl; eexists; (split; [done|]); done. }
  destruct (getProperty CONTRACT_ADDRESSES chainKey) as [contractAddress| |];
    cbn [falsy].
  - destruct (String.eqb contractAddress "");
      [simpl; rewrite <- app_assoc; by eexists|apply Hloop].
  - apply Hloop.
  - simpl. rewrite <- app_assoc. by eexists.
Qed.

(** A chain named after a property of [Object.prototype], with no entry
    of its own in the address table, is not skipped: the inherited value
    is truthy, every attempt throws at [new ethers.Contract], and the
    chain is given up after three rounds and both backoff waits. *)
Example forChain_inherited_address :
  let s := (forChain (env := reportsEnv shortStarsWorld ∅)
              ("constructor", monadTestnet) (fresh 0)).2 in
  attempts (trace s)
    = [("https://monad-testnet.g.alchemy.com/v2/cPagatQQ9SL_dZvqKBJYoc_dG2cHbmcA", 1);
       ("https://testnet-rpc.monad.xyz", 1);
       ("https://monad-testnet.g.alchemy.com/v2/cPagatQQ9SL_dZvqKBJYoc_dG2cHbmcA", 2);
       ("https://testnet-rpc.monad.xyz", 2);
       ("https://monad-testnet.g.alchemy.com/v2/cPagatQQ9SL_dZvqKBJYoc_dG2cHbmcA", 3);
       ("https://testnet-rpc.monad.xyz", 3)]
  /\ awaits Backoff (trace s) = [4000; 8000]%N
  /\ clock s = 12000%N
  /\ allAudits s = [].
Proof. vm_compute. repeat split. Qed.

(** ** Records of equal timestamp *)

Lemma sort_all_equal {A} (cmp : A -> A -> Z) (key : A -> Z) (t : Z) l :
  (forall a b, cmp a b = (key b - key a)%Z) ->
  Forall (fun a => key a = t) l -> sort cmp l = l.
Proof.
  intros Hcmp. induction 1 as [|x l Hx Hl IH]; simpl; [done|].
  rewrite IH. apply (sort_insert_head cmp key Hcmp).
  eapply Forall_impl; [exact Hl|]. intros a Ha. unfold descBy. simpl in *. lia.
Qed.

(** X15.  [fetchAllChainAudits], the final sort: records with the same
    timestamp keep the order in which they were pushed, chain after chain
    in the order of [CHAIN_CONFIG] and index after index within a
    response. *)
Theorem fetchAllChainAudits_ties_in_push_order (world : World)
    (CONTRACT_ADDRESSES : gmap string string)
    (CHAIN_CONFIG : list (string * ChainConfig)) (t : Z) :
  exists reports,
    (fetchAllChainAudits world CONTRACT_ADDRESSES CHAIN_CONFIG).1
      = Normal reports
    /\ filter (fun r => timestamp r = t) reports
       = filter (fun r => timestamp r = t)
           (mjoin (contributions (env := reportsEnv world CONTRACT_ADDRESSES)
                     CHAIN_CONFIG 0).*2).
Proof.
  unfold fetchAllChainAudits. rewrite fetchSorted_value. simpl.
  eexists. split; [done|].
  rewrite (filter_sort _ timestamp) by done.
  apply (sort_all_equal _ timestamp t); [done|].
  apply Forall_forall. by intros r [Hr _]%list_elem_of_filter.
Qed.

(** ** Exporting what was fetched *)

Section Addressed.
Context {R : Type} {env : FetchEnv R}.

(** With an inherited value for an address every attempt throws at
    [new ethers.Contract], so the loop gives up and pushes nothing. *)
Lemma whileLoop_inherited chainKey chainData s :
  exists s',
    whileLoop chainKey chainData Inherited 0 s = (Normal false, s')
    /\ allAudits s' = allAudits s.
Proof.
  destruct (whileLoop_run chainKey chainData Inherited 0 s)
    as (success & s' & tr & rounds & Hrun & H).
  do 9 destruct H as [_ H]. destruct H as [Hgiveup _].
  assert (Hfail : (whileLoop chainKey chainData Inherited 0 s).1
                  = Normal false).
  { apply whileLoop_fail. intros rc s0. apply forRpcUrls_fail.
    intros url s1 _. by exists invalidTarget. }
  rewrite Hrun in Hfail. injection Hfail as ->.
  exists s'. split; [done|]. by destruct Hgiveup as (_ & _ & ->).
Qed.

(** A chain that pushes a record has a non-empty address of its own in
    the table. *)
Lemma forChain_addressed chainKey chainData s :
  exists recs,
    allAudits (forChain (chainKey, chainData) s).2 = allAudits s ++ recs
    /\ (recs <> [] ->
        exists contractAddress,
          CONTRACT_ADDRESSES !! chainKey = Some contractAddress
          /\ contractAddress <> "").
Proof.
  destruct (forChain_tagged chainKey chainData s) as (recs & Hrecs & _).
  exists recs. split; [done|]. intros Hne.
  assert (Hnil : allAudits (forChain (chainKey, chainData) s).2 = allAudits s
                 -> False).
  { rewrite Hrecs. intros Heq. rewrite <- (app_nil_r (allAudits s)) in Heq at 2.
    by apply app_inv_head in Heq. }
  revert Hnil. clear Hrecs.
  unfold forChain. unfold mbind at 1, M_bind at 1, console at 1. cbv zeta.
  unfold getProperty.
  destruct (CONTRACT_ADDRESSES !! chainKey) as [contractAddress|].
  - cbn [falsy]. destruct (String.eqb_spec contractAddress "") as [->|Hneq].
    + intros Hnil. by destruct Hnil.
    + intros _. by exists contractAddress.
  - destruct (bool_decide (chainKey ∈ objectPrototypeNames)); cbn [falsy].
    + intros Hnil. destruct Hnil. unfold mbind, M_bind.
      match goal with
      | |- context [whileLoop ?k ?d Inherited 0 ?s1] =>
          destruct (whileLoop_inherited k d s1) as (s' & -> & Hsame)
      end.
      exact Hsame.
    + intros Hnil. by destruct Hnil.
Qed.

Lemma contributions_addressed entries t :
  Forall (fun kr =>
            kr.2 <> [] ->
            exists contractAddress,
              CONTRACT_ADDRESSES !! kr.1 = Some contractAddress
              /\ contractAddress <> "")
    (contributions entries t).
Proof.
  revert t. induction entries as [|[chainKey chainData] rest IH]; intros t;
    [done|].
  cbn [contributions]. constructor; [|apply IH]. cbn [fst snd].
  destruct (forChain_addressed chainKey chainData (fresh t))
    as (recs & -> & Haddr).
  done.
Qed.
End Addressed.

(** Every reported record carries the key of a configured chain that has
    a non-empty address. *)
Lemma fetched_chain_known world CONTRACT_ADDRESSES CHAIN_CONFIG reports report :
  (fetchAllChainAudits world CONTRACT_ADDRESSES CHAIN_CONFIG).1
    = Normal reports ->
  report ∈ reports ->
  chain report ∈ CHAIN_CONFIG.*1
  /\ exists contractAddress,
       CONTRACT_ADDRESSES !! chain report = Some contractAddress
       /\ contractAddress <> "".
Proof.
  unfold fetchAllChainAudits. rewrite fetchSorted_value. simpl.
  intros [= <-] Hin. rewrite sort_perm in Hin.
  apply list_elem_of_join in Hin as (recs & Hr & Hrecs).
  apply list_elem_of_fmap in Hrecs as ([chainKey recs'] & -> & Hkr).
  simpl in Hr.
  pose proof (contributions_tagged (env := reportsEnv world CONTRACT_ADDRESSES)
                CHAIN_CONFIG 0) as Htag.
  pose proof (contributions_addressed
                (env := reportsEnv world CONTRACT_ADDRESSES) CHAIN_CONFIG 0)
    as Haddr.
  rewrite Forall_forall in Htag, Haddr.
  specialize (Htag _ Hkr). specialize (Haddr _ Hkr). simpl in Htag, Haddr.
  rewrite Forall_forall in Htag.
  destruct (Htag _ Hr) as (? & ? & ? & ? & ? & ->). simpl. split.
  - rewrite <- (contributions_keys (env := reportsEnv world CONTRACT_ADDRESSES)
                  CHAIN_CONFIG 0).
    apply list_elem_of_fmap. by exists (chainKey, recs').
  - apply Haddr. intros ->. by apply not_elem_of_nil in Hr.
Qed.

(** X16.  [exportReport] on a report of the page: a report that
    [fetchAllChainAudits] has produced and [getFilteredReports] shows is
    always exported without an error escaping.  Its chain is a key of
    [CHAIN_CONFIG] with a non-empty address in the table, so the report
    is formatted with that chain's name and id and that address, and a
    failing download is only logged. *)
Theorem exportReport_of_fetched (browser : Browser) (world : World)
    (CONTRACT_ADDRESSES : gmap string string)
    (CHAIN_CONFIG : list (string * ChainConfig)) (nowMs : Z)
    (filters : FilterState) (t : N) (reports : list AuditReport)
    (report : AuditReport) :
  (fetchAllChainAudits world CONTRACT_ADDRESSES CHAIN_CONFIG).1
    = Normal reports ->
  report ∈ getFilteredReports nowMs filters reports ->
  exists chainData contractAddress formattedReport events,
    (chain report, chainData) ∈ CHAIN_CONFIG
    /\ CONTRACT_ADDRESSES !! chain report = Some contractAddress
    /\ contractAddress <> ""
    /\ formatReport browser CHAIN_CONFIG CONTRACT_ADDRESSES t report
         = Normal formattedReport
    /\ fr_chainName formattedReport = Some (chainName chainData)
    /\ network formattedReport
         = mkNetwork (Some (chainName chainData)) (Some (chainId chainData))
             (Own contractAddress)
    /\ exportReport browser CHAIN_CONFIG CONTRACT_ADDRESSES t report
         = Normal (Download
                     ("audit-" +:+ slice_string 0 8 (contractHash report)
                      +:+ ".json") formattedReport :: events)
    /\ Forall (fun e => exists error, e = ErrorExporting error) events.
Proof.
  intros Hrun Hshown.
  assert (Hin : report ∈ reports).
  { unfold getFilteredReports in Hshown.
    by apply list_elem_of_filter in Hshown as [_ Hin]. }
  destruct (fetched_chain_known _ _ _ _ _ Hrun Hin)
    as (Hkey & contractAddress & Haddr & Hne).
  destruct ((list_to_map CHAIN_CONFIG : gmap string ChainConfig)
              !! chain report) as [chainData|] eqn:Hcfg.
  2:{ by apply not_elem_of_list_to_map in Hcfg. }
  exists chainData, contractAddress.
  unfold exportReport, formatReport, getProperty. rewrite Hcfg, Haddr.
  eexists. eexists. split; [by apply elem_of_list_to_map_2|].
  do 3 (split; [done|]). do 3 (split; [reflexivity|]).
  destruct (download browser _ _); repeat constructor. by eexists.
Qed.

Lemma exportReport_of_fetched_witness :
  exists formattedReport error,
    exportReport brokenBrowser twoChains sampleAddresses 0
      (mkAuditReport "0xh2" 4 "" "0xa2" 20 "other")
    = Normal [Download "audit-0xh2.json" formattedReport;
              ErrorExporting error]
    /\ network formattedReport
       = mkNetwork (Some "Other") (Some "0x1") (Own "0xRegistry2").
Proof.
  destruct (exportReport_of_fetched brokenBrowser mixedWorld sampleAddresses
              twoChains 0 initialFilters 0
              [mkAuditReport "0xh2" 4 "" "0xa2" 20 "other";
               mkAuditReport "0xh1" 5 "ok" "0xA1" 10 "other"]
              (mkAuditReport "0xh2" 4 "" "0xa2" 20 "other"))
    as (chainData & contractAddress & formattedReport & events & _ & _ & _
        & _ & _ & _ & Hexport & _).
  - reflexivity.
  - vm_compute. left.
  - vm_compute in Hexport. injection Hexport as <- <-.
    eexists. eexists. split; reflexivity.
Defined.

(** ** The chain lookups *)

Example parseInt16_monadTestnet : parseInt16 (chainId monadTestnet) = Int 10143.
Proof. reflexivity. Qed.

Example parseInt16_forms :
  parseInt16 "  -0X1f rest" = Int (-31)
  /\ parseInt16 "279F" = Int 10143
  /\ parseInt16 "0x" = NaN
  /\ parseInt16 "monad" = NaN
  /\ parseInt16 "" = NaN.
Proof. repeat split; reflexivity. Qed.

(** The string test and the numeric lookup disagree on an id written
    without its prefix. *)
Example isSupportedNetwork_unprefixed :
  isSupportedNetwork CHAIN_CONFIG_entries "279f" = false
  /\ getChainKeyFromChainId CHAIN_CONFIG_entries (parseInt16 "279f")
     = Some "monadTestnet".
Proof. split; reflexivity. Qed.

Ltac by_char c := destruct c as [[] [] [] [] [] [] [] []]; reflexivity.

Lemma isWhiteSpace_lower c : isWhiteSpace (lower_ascii c) = isWhiteSpace c.
Proof. by_char c. Qed.

Lemma hexDigit_lower c : hexDigit (lower_ascii c) = hexDigit c.
Proof. by_char c. Qed.

Lemma lower_minus c : (lower_ascii c =? "-")%char = (c =? "-")%char.
Proof. by_char c. Qed.

Lemma lower_plus c : (lower_ascii c =? "+")%char = (c =? "+")%char.
Proof. by_char c. Qed.

Lemma lower_zero c : (lower_ascii c =? "0")%char = (c =? "0")%char.
Proof. by_char c. Qed.

Lemma lower_x c :
  ((lower_ascii c =? "x")%char || (lower_ascii c =? "X")%char)
  = ((c =? "x")%char || (c =? "X")%char).
Proof. by_char c. Qed.

Lemma trimStart_lower s : trimStart (toLowerCase s) = toLowerCase (trimStart s).
Proof.
  induction s as [|c s IH]; [done|]. cbn [toLowerCase trimStart].
  rewrite isWhiteSpace_lower. by destruct (isWhiteSpace c).
Qed.

Lemma stripSign_lower s :
  stripSign (toLowerCase s)
  = ((stripSign s).1, toLowerCase (stripSign s).2).
Proof.
  destruct s as [|c s]; [done|]. cbn [toLowerCase stripSign].
  rewrite lower_minus, lower_plus.
  by destruct (c =? "-")%char, (c =? "+")%char.
Qed.

Lemma strip0x_lower s : strip0x (toLowerCase s) = toLowerCase (strip0x s).
Proof.
  destruct s as [|c1 [|c2 s]]; try done. cbn [toLowerCase strip0x].
  rewrite lower_zero, lower_x.
  by destruct ((c1 =? "0")%char && ((c2 =? "x")%char || (c2 =? "X")%char)).
Qed.

Lemma hexPrefix_lower read s : hexPrefix read (toLowerCase s) = hexPrefix read s.
Proof.
  revert read. induction s as [|c s IH]; intros read; [done|].
  cbn [toLowerCase hexPrefix]. rewrite hexDigit_lower.
  by destruct (hexDigit c).
Qed.

(** [parseInt(s, 16)] does not see the letter case of [s]. *)
Lemma parseInt16_lower s : parseInt16 (toLowerCase s) = parseInt16 s.
Proof.
  unfold parseInt16. rewrite trimStart_lower, stripSign_lower.
  destruct (stripSign (trimStart s)) as [negative s1]. cbn [fst snd].
  by rewrite strip0x_lower, hexPrefix_lower.
Qed.

Lemma strictEquals_refl n : n <> NaN -> strictEquals n n = true.
Proof.
  destruct n as [|z|m e|[]]; try done; intros _; simpl.
  - apply Z.eqb_refl.
  - by rewrite Z.eqb_refl, Pos.eqb_refl.
Qed.

Lemma getChainKeyFromChainId_found CHAIN_CONFIG id chainKey :
  getChainKeyFromChainId CHAIN_CONFIG id = Some chainKey ->
  exists config,
    (chainKey, config) ∈ CHAIN_CONFIG
    /\ strictEquals (parseInt16 (chainId config)) id = true.
Proof.
  unfold getChainKeyFromChainId.
  destruct (find _ CHAIN_CONFIG) as [[key config]|] eqn:Hfind; [|done].
  intros [= <-]. apply find_some in Hfind as [Hin Heq].
  exists config. split; [by apply list_elem_of_In|done].
Qed.

Lemma getChainKeyFromChainId_none CHAIN_CONFIG id :
  getChainKeyFromChainId CHAIN_CONFIG id = None ->
  forall chainKey config,
    (chainKey, config) ∈ CHAIN_CONFIG ->
    strictEquals (parseInt16 (chainId config)) id = false.
Proof.
  unfold getChainKeyFromChainId.
  destruct (find _ CHAIN_CONFIG) as [[key config]|] eqn:Hfind; [done|].
  intros _ chainKey config Hin.
  by apply (find_none _ _ Hfind (chainKey, config)), list_elem_of_In.
Qed.

(** X17.  [getChainConfigFromChainId]: on a configuration whose keys are
    distinct, as the keys of an object are, the result is an entry whose
    chain id parses to the number asked for, under the key
    [getChainKeyFromChainId] gives; it is [null] exactly when no entry's
    id parses to that number or when the first such entry sits under the
    empty key. *)
Theorem getChainConfigFromChainId_spec
    (CHAIN_CONFIG : list (string * ChainConfig)) (id : number) :
  NoDup CHAIN_CONFIG.*1 ->
  match getChainConfigFromChainId CHAIN_CONFIG id with
  | Some found =>
      exists chainKey config,
        found = Own config
        /\ getChainKeyFromChainId CHAIN_CONFIG id = Some chainKey
        /\ chainKey <> ""
        /\ (chainKey, config) ∈ CHAIN_CONFIG
        /\ strictEquals (parseInt16 (chainId config)) id = true
  | None =>
      getChainKeyFromChainId CHAIN_CONFIG id = Some ""
      \/ forall chainKey config,
           (chainKey, config) ∈ CHAIN_CONFIG ->
           strictEquals (parseInt16 (chainId config)) id = false
  end.
Proof.
  intros Hkeys. unfold getChainConfigFromChainId.
  destruct (getChainKeyFromChainId CHAIN_CONFIG id) as [chainKey|] eqn:Hkey.
  - destruct (String.eqb_spec chainKey "") as [->|Hne]; [by left|].
    destruct (getChainKeyFromChainId_found _ _ _ Hkey) as (config & Hin & Heq).
    exists chainKey, config. repeat split; try done.
    unfold getProperty. by rewrite (elem_of_list_to_map_1 _ _ _ Hkeys Hin).
  - right. by apply getChainKeyFromChainId_none.
Qed.

Lemma getChainConfigFromChainId_spec_witness :
  (exists chainKey config,
     Own monadTestnet = Own config
     /\ getChainKeyFromChainId CHAIN_CONFIG_entries (Int 10143) = Some chainKey
     /\ chainKey <> ""
     /\ (chainKey, config) ∈ CHAIN_CONFIG_entries
     /\ strictEquals (parseInt16 (chainId config)) (Int 10143) = true)
  /\ (getChainKeyFromChainId unnamedChain (Int 1) = Some ""
      \/ forall chainKey config,
           (chainKey, config) ∈ unnamedChain ->
           strictEquals (parseInt16 (chainId config)) (Int 1) = false).
Proof.
  split.
  - apply (getChainConfigFromChainId_spec CHAIN_CONFIG_entries (Int 10143)).
    apply (bool_decide_unpack _). by vm_compute.
  - apply (getChainConfigFromChainId_spec unnamedChain (Int 1)).
    apply (bool_decide_unpack _). by vm_compute.
Defined.

(** X18.  [isSupportedNetwork] against [getChainKeyFromChainId]: an id
    string that the string test accepts and that [parseInt(_, 16)] reads
    as a number is found by the numeric lookup.  The string test is the
    stricter of the two. *)
Theorem isSupportedNetwork_lookup (CHAIN_CONFIG : list (string * ChainConfig))
    (id : string) :
  isSupportedNetwork CHAIN_CONFIG id = true ->
  parseInt16 id <> NaN ->
  exists chainKey config,
    getChainKeyFromChainId CHAIN_CONFIG (parseInt16 id) = Some chainKey
    /\ (chainKey, config) ∈ CHAIN_CONFIG
    /\ parseInt16 (chainId config) = parseInt16 id.
Proof.
  intros Hsupported Hnum. unfold isSupportedNetwork in Hsupported.
  apply existsb_exists in Hsupported as (chain & Hin & Heq).
  apply list_elem_of_In, list_elem_of_fmap in Hin as ([key config] & -> & Hin).
  apply String.eqb_eq in Heq. simpl in Heq.
  assert (Hparse : parseInt16 (chainId config) = parseInt16 id).
  { by rewrite <- (parseInt16_lower (chainId config)), Heq, parseInt16_lower. }
  destruct (getChainKeyFromChainId CHAIN_CONFIG (parseInt16 id))
    as [chainKey|] eqn:Hkey.
  - destruct (getChainKeyFromChainId_found _ _ _ Hkey) as (config' & Hin' & Heq').
    exists chainKey, config'. split; [done|]. split; [done|].
    destruct (parseInt16 (chainId config')) as [|z|m e|n],
      (parseInt16 id) as [|z'|m' e'|n']; try done; simpl in Heq'.
    + by apply Z.eqb_eq in Heq' as ->.
    + apply andb_true_iff in Heq' as [->%Z.eqb_eq ->%Pos.eqb_eq]. done.
    + by apply Bool.eqb_prop in Heq' as ->.
  - pose proof (getChainKeyFromChainId_none _ _ Hkey key config Hin) as Hno.
    rewrite Hparse, strictEquals_refl in Hno; done.
Qed.

Lemma isSupportedNetwork_lookup_witness :
  exists chainKey config,
    getChainKeyFromChainId CHAIN_CONFIG_entries (parseInt16 "0x279f")
      = Some chainKey
    /\ (chainKey, config) ∈ CHAIN_CONFIG_entries
    /\ parseInt16 (chainId config) = parseInt16 "0x279f".
Proof.
  apply (isSupportedNetwork_lookup CHAIN_CONFIG_entries "0x279f");
    [reflexivity | discriminate].
Defined.

(** ** Switching the network *)

Example switchNetwork_newUserWallet :
  switchNetwork (Some newUserWallet) CHAIN_CONFIG_entries "monadTestnet"
  = (Fulfilled,
     [Requested (wallet_switchEthereumChain (Some "0x279F"));
      Requested
        (wallet_addEthereumChain (Some "0x279F") (Some "Monad Testnet")
           (Some (nativeCurrency monadTestnet)) (Some (rpcUrls monadTestnet))
           (Some (blockExplorerUrls monadTestnet)))]).
Proof. reflexivity. Qed.

Example switchNetwork_unknown_key :
  switchNetwork (Some newUserWallet) CHAIN_CONFIG_entries "mainnet"
  = (let error :=
       mkEthereumError None
         "Cannot read properties of undefined (reading 'chainId')" in
     (Rejected error, [ErrorSwitchingChain error])).
Proof. reflexivity. Qed.

(** X19.  [switchNetwork]: whatever the wallet answers, at most two
    requests are sent.  The first is the switch; a second one is the
    request to add the same chain, sent only after the wallet has
    rejected the switch with code 4902, and the switch is not asked
    again after it.  An error that ends the call has been printed exactly
    once, and nothing is printed otherwise; without a wallet nothing is
    sent or printed. *)
Theorem switchNetwork_protocol (ethereum : option Ethereum)
    (CHAIN_CONFIG : list (string * ChainConfig)) (chainKey : string) :
  let r := switchNetwork ethereum CHAIN_CONFIG chainKey in
  (exists id,
     requestsOf r.2 `prefix_of`
       [wallet_switchEthereumChain id;
        wallet_addEthereumChain id
          (chainName <$> (list_to_map CHAIN_CONFIG : gmap _ _) !! chainKey)
          (nativeCurrency <$> (list_to_map CHAIN_CONFIG : gmap _ _) !! chainKey)
          (rpcUrls <$> (list_to_map CHAIN_CONFIG : gmap _ _) !! chainKey)
          (blockExplorerUrls <$>
             (list_to_map CHAIN_CONFIG : gmap _ _) !! chainKey)]
     /\ id = chainId <$> (list_to_map CHAIN_CONFIG : gmap _ _) !! chainKey
     /\ (length (requestsOf r.2) = 2 ->
         exists wallet switchError,
           ethereum = Some wallet
           /\ wallet (wallet_switchEthereumChain id) = Rejected switchError
           /\ eth_code switchError = Some 4902%Z))
  /\ errorsOf r.2 =
       match ethereum, r.1 with
       | Some _, Rejected error => [error]
       | _, _ => []
       end.
Proof.
  destruct ethereum as [wallet|]; simpl;
    [|split; [eexists; split; [apply prefix_nil|split; [done|done]]|done]].
  unfold getProperty.
  destruct ((list_to_map CHAIN_CONFIG : gmap string ChainConfig) !! chainKey)
    as [chainData|]; simpl.
  - destruct (wallet (wallet_switchEthereumChain (Some (chainId chainData))))
      as [|switchError|] eqn:Hswitch; simpl.
    + split; [|done]. eexists. split; [by eexists|]. split; [done|done].
    + destruct (decide (eth_code switchError = Some 4902%Z)) as [Hcode|Hcode].
      * destruct (wallet (wallet_addEthereumChain _ _ _ _ _))
          as [|addError|]; simpl;
          (split; [|done]); eexists;
          (split; [done|]); (split; [done|]); intros _; by eexists _, _.
      * simpl. split; [|done]. eexists. split; [by eexists|].
        split; [done|done].
    + split; [|done]. eexists. split; [by eexists|]. split; [done|done].
  - destruct (bool_decide (chainKey ∈ objectPrototypeNames)); simpl.
    + destruct (wallet (wallet_switchEthereumChain None))
        as [|switchError|] eqn:Hswitch; simpl.
      * split; [|done]. eexists. split; [by eexists|]. split; [done|done].
      * destruct (decide (eth_code switchError = Some 4902%Z)) as [Hcode|Hcode].
        -- destruct (wallet (wallet_addEthereumChain _ _ _ _ _))
             as [|addError|]; simpl;
             (split; [|done]); eexists;
             (split; [done|]); (split; [done|]); intros _; by eexists _, _.
        -- simpl. split; [|done]. eexists. split; [by eexists|].
           split; [done|done].
      * split; [|done]. eexists. split; [by eexists|]. split; [done|done].
    + split; [|done]. eexists. split; [apply prefix_nil|]. split; [done|done].
Qed.
